(** * The scan-cycle engine of [rpi_plc/plc.py]

    A shallow embedding of [MemoryVariable] and [AbstractPLC]: Python
    values with their truthiness, the dataclass with its mutating
    methods as state transformers, the five dictionaries of the PLC as
    insertion-ordered dictionaries, and the methods of the engine in a
    small monad that threads the PLC, raises Python exceptions and
    records the calls the engine makes. *)

From Stdlib Require Import String List ZArith Bool Arith Lia Floats.
Import ListNotations.
Open Scope string_scope.
Open Scope list_scope.

(** ** Python values and exceptions *)

(** The payload of a memory variable: [bool | int | float]. *)
Inductive value : Type :=
| VBool (b : bool)
| VInt (z : Z)
| VFloat (f : float).

(** Python's truth value of a [bool], an [int] or a [float]:
    [False], [0], [0.0] and [-0.0] are falsy, everything else
    (NaN included) is truthy. *)
Definition truthy (v : value) : bool :=
  match v with
  | VBool b => b
  | VInt z => negb (Z.eqb z 0)
  | VFloat f => negb (PrimFloat.eqb f 0%float)
  end.

(** The exceptions that travel through the engine.  [ValueError] is
    what the bit-only operations raise on a variable that is not single
    bit; [SystemExit] is what [sys.exit] raises. *)
Inductive exn : Type :=
| EmergencyException
| InternalCommunicationError (description : string)
| ConfigurationError (msg : string)
| ValueError (msg : string)
| KeyError (key : string)
| SystemExit (msg : string)
| OtherException (name : string).

(** How a call ends: it returns, or it raises. *)
Inductive result (A : Type) : Type :=
| Return (a : A)
| Raise (e : exn).
Arguments Return {A} a.
Arguments Raise {A} e.

(** ** [MemoryVariable] *)

Record MemoryVariable : Type := {
  curr_state : value;
  prev_state : value;
  single_bit : bool;
  decimal_precision : Z
}.

(** The dataclass constructor with all its defaults: [MemoryVariable()]. *)
Definition MemoryVariable_default : MemoryVariable :=
  {| curr_state := VInt 0; prev_state := VInt 0;
     single_bit := true; decimal_precision := 3 |}.

Definition set_curr_state (mv : MemoryVariable) (v : value) : MemoryVariable :=
  {| curr_state := v; prev_state := prev_state mv;
     single_bit := single_bit mv; decimal_precision := decimal_precision mv |}.

Definition set_prev_state (mv : MemoryVariable) (v : value) : MemoryVariable :=
  {| curr_state := curr_state mv; prev_state := v;
     single_bit := single_bit mv; decimal_precision := decimal_precision mv |}.

(** [update]: two assignments, in the order of the source. *)
Definition update (mv : MemoryVariable) (v : value) : MemoryVariable :=
  let mv1 := set_prev_state mv (curr_state mv) in
  set_curr_state mv1 v.

(** The property [active]. *)
Definition active (mv : MemoryVariable) : bool :=
  if truthy (curr_state mv) then true else false.

Definition not_single_bit : exn := ValueError "Memory variable is not single bit.".

(** [activate] and [deactivate] mutate the variable or raise and leave
    it alone: the variable after the call is the second component. *)
Definition activate (mv : MemoryVariable) : result unit * MemoryVariable :=
  if single_bit mv then (Return tt, update mv (VInt 1))
  else (Raise not_single_bit, mv).

Definition deactivate (mv : MemoryVariable) : result unit * MemoryVariable :=
  if single_bit mv then (Return tt, update mv (VInt 0))
  else (Raise not_single_bit, mv).

(** The properties [raising_edge] and [falling_edge] assign nothing:
    they are functions of the variable alone. *)
Definition raising_edge (mv : MemoryVariable) : result bool :=
  if single_bit mv then
    if truthy (curr_state mv) && negb (truthy (prev_state mv)) then Return true
    else Return false
  else Raise not_single_bit.

Definition falling_edge (mv : MemoryVariable) : result bool :=
  if single_bit mv then
    if truthy (prev_state mv) && negb (truthy (curr_state mv)) then Return true
    else Return false
  else Raise not_single_bit.

(** ** Dictionaries

    A Python [dict] keeps its keys in insertion order, and assigning to
    a key that is present replaces the value where it stands. *)

Definition odict (V : Type) : Type := list (string * V).

Fixpoint od_get {V : Type} (k : string) (d : odict V) : option V :=
  match d with
  | [] => None
  | (k', v) :: d' => if String.eqb k k' then Some v else od_get k d'
  end.

Fixpoint od_set {V : Type} (k : string) (v : V) (d : odict V) : odict V :=
  match d with
  | [] => [(k, v)]
  | (k', v') :: d' =>
      if String.eqb k k' then (k, v) :: d' else (k', v') :: od_set k v d'
  end.

Definition od_keys {V : Type} (d : odict V) : list string := map fst d.

Definition od_values {V : Type} (d : odict V) : list V := map snd d.

(** Mutating every value of a dictionary in place, as a [for] loop over
    [d.values()] whose body mutates the object it is handed. *)
Definition od_map {V : Type} (f : V -> V) (d : odict V) : odict V :=
  map (fun kv => (fst kv, f (snd kv))) d.

(** ** What the engine is observed to do

    The calls the engine makes, in the order it makes them: its own
    methods, the three routines of the application, [read] and [write]
    on a binding, the logger, the notifier and [sys.exit]. *)
Inductive event : Type :=
| EvUpdateRegistries
| EvReadInputs
| EvControlRoutine
| EvWriteOutputs
| EvEmergencyRoutine
| EvExitRoutine
| EvRead (label : string) (r : value + string)
| EvWrite (label : string) (v : value)
| EvLogError (msg : string)
| EvNotify (msg : string)
| EvSysExit (msg : string).

Definition is_emergency_routine (ev : event) : bool :=
  match ev with EvEmergencyRoutine => true | _ => false end.

Definition is_exit_routine (ev : event) : bool :=
  match ev with EvExitRoutine => true | _ => false end.

Definition is_write_outputs (ev : event) : bool :=
  match ev with EvWriteOutputs => true | _ => false end.

Definition is_control_routine (ev : event) : bool :=
  match ev with EvControlRoutine => true | _ => false end.

(** [update_registries] is the first statement of every scan cycle. *)
Definition is_cycle_start (ev : event) : bool :=
  match ev with EvUpdateRegistries => true | _ => false end.

Definition is_write (ev : event) : bool :=
  match ev with EvWrite _ _ => true | _ => false end.

(** The calls that are not calls of a method of the engine or of a
    routine of the application. *)
Definition leaf (ev : event) : bool :=
  match ev with
  | EvRead _ _ | EvWrite _ _ | EvLogError _ | EvNotify _ | EvSysExit _ => true
  | _ => false
  end.

Definition count (f : event -> bool) (t : list event) : nat :=
  List.length (filter f t).

(** [pin: str | int]. *)
Inductive pin_id : Type :=
| PinName (s : string)
| PinNumber (n : Z).

(** How one iteration of the [while] body of [run] ends when it does
    not raise: it falls through to the loop head, or it executes the
    [return] of the emergency clause. *)
Inductive loop_exit : Type :=
| Continue
| Returned.

Section Engine.

(** [W] is everything outside the dictionaries of the PLC: the hardware
    behind the bindings, the attributes of the application's subclass,
    the operator.  [PiFactory] and [EmailNotification] are the classes
    of those names. *)
Context {W PiFactory EmailNotification : Type}.

(** The bindings.  The classes [DigitalInput], [DigitalOutput] and
    [PWMOutput] of [gpio.py] are taken as records of their constructor
    arguments; what their [read] and [write] do is the [Hardware]
    below. *)
Inductive GPIO : Type :=
| DigitalInput (pin : pin_id) (label : string) (pin_factory : option PiFactory)
    (pull_up : option bool) (active_state : bool)
| DigitalOutput (pin : pin_id) (label : string) (pin_factory : option PiFactory)
    (init_value : value)
| PWMOutput (pin : pin_id) (label : string) (pin_factory : option PiFactory)
    (init_value frame_width min_pulse_width max_pulse_width min_value max_value : value).

Definition label (g : GPIO) : string :=
  match g with
  | DigitalInput _ l _ _ _ => l
  | DigitalOutput _ l _ _ => l
  | PWMOutput _ l _ _ _ _ _ _ _ => l
  end.

(** The attributes of an [AbstractPLC] instance, and the world around it. *)
Record AbstractPLC : Type := {
  pin_factory : option PiFactory;
  eml_notification : option EmailNotification;
  _inputs : odict GPIO;
  _outputs : odict GPIO;
  input_registry : odict MemoryVariable;
  output_registry : odict MemoryVariable;
  step_registry : odict MemoryVariable;
  _exit : bool;
  world : W
}.

Definition set__inputs (p : AbstractPLC) (d : odict GPIO) : AbstractPLC :=
  {| pin_factory := pin_factory p; eml_notification := eml_notification p;
     _inputs := d; _outputs := _outputs p;
     input_registry := input_registry p; output_registry := output_registry p;
     step_registry := step_registry p; _exit := _exit p; world := world p |}.

Definition set__outputs (p : AbstractPLC) (d : odict GPIO) : AbstractPLC :=
  {| pin_factory := pin_factory p; eml_notification := eml_notification p;
     _inputs := _inputs p; _outputs := d;
     input_registry := input_registry p; output_registry := output_registry p;
     step_registry := step_registry p; _exit := _exit p; world := world p |}.

Definition set_input_registry (p : AbstractPLC) (d : odict MemoryVariable) : AbstractPLC :=
  {| pin_factory := pin_factory p; eml_notification := eml_notification p;
     _inputs := _inputs p; _outputs := _outputs p;
     input_registry := d; output_registry := output_registry p;
     step_registry := step_registry p; _exit := _exit p; world := world p |}.

Definition set_output_registry (p : AbstractPLC) (d : odict MemoryVariable) : AbstractPLC :=
  {| pin_factory := pin_factory p; eml_notification := eml_notification p;
     _inputs := _inputs p; _outputs := _outputs p;
     input_registry := input_registry p; output_registry := d;
     step_registry := step_registry p; _exit := _exit p; world := world p |}.

Definition set_step_registry (p : AbstractPLC) (d : odict MemoryVariable) : AbstractPLC :=
  {| pin_factory := pin_factory p; eml_notification := eml_notification p;
     _inputs := _inputs p; _outputs := _outputs p;
     input_registry := input_registry p; output_registry := output_registry p;
     step_registry := d; _exit := _exit p; world := world p |}.

Definition set__exit (p : AbstractPLC) (b : bool) : AbstractPLC :=
  {| pin_factory := pin_factory p; eml_notification := eml_notification p;
     _inputs := _inputs p; _outputs := _outputs p;
     input_registry := input_registry p; output_registry := output_registry p;
     step_registry := step_registry p; _exit := b; world := world p |}.

Definition set_world (p : AbstractPLC) (w : W) : AbstractPLC :=
  {| pin_factory := pin_factory p; eml_notification := eml_notification p;
     _inputs := _inputs p; _outputs := _outputs p;
     input_registry := input_registry p; output_registry := output_registry p;
     step_registry := step_registry p; _exit := _exit p; world := w |}.

(** [__init__]: empty dictionaries, the stop flag down. *)
Definition AbstractPLC_init (pin_factory : option PiFactory)
    (eml_notification : option EmailNotification) (w : W) : AbstractPLC :=
  {| pin_factory := pin_factory; eml_notification := eml_notification;
     _inputs := []; _outputs := [];
     input_registry := []; output_registry := []; step_registry := [];
     _exit := false; world := w |}.

(** *** Configuration *)

(** [NC_contact: bool | None]: [None] and [False] are falsy. *)
Definition truthy_flag (b : option bool) : bool :=
  match b with Some true => true | _ => false end.

Definition add_digital_input (pin : pin_id) (label : string) (NC_contact : option bool)
    (p : AbstractPLC) : MemoryVariable * AbstractPLC :=
  let '(active_state, init_value) :=
    if truthy_flag NC_contact then (false, VInt 1) else (true, VInt 0) in
  let p1 := set__inputs p
    (od_set label (DigitalInput pin label (pin_factory p) None active_state) (_inputs p)) in
  let mv := {| curr_state := init_value; prev_state := init_value;
               single_bit := true; decimal_precision := 3 |} in
  let p2 := set_input_registry p1 (od_set label mv (input_registry p1)) in
  (mv, p2).

Definition add_digital_output (pin : pin_id) (label : string) (init_value : value)
    (p : AbstractPLC) : (MemoryVariable * MemoryVariable) * AbstractPLC :=
  let p1 := set__outputs p
    (od_set label (DigitalOutput pin label (pin_factory p) init_value) (_outputs p)) in
  let mv := {| curr_state := init_value; prev_state := init_value;
               single_bit := true; decimal_precision := 3 |} in
  let p2 := set_output_registry p1 (od_set label mv (output_registry p1)) in
  let status := MemoryVariable_default in
  let p3 := set_input_registry p2 (od_set (label ++ "_status")%string status (input_registry p2)) in
  ((mv, status), p3).

Definition add_pwm_output (pin : pin_id) (label : string)
    (init_value frame_width min_pulse_width max_pulse_width min_value max_value : value)
    (decimal_precision : Z)
    (p : AbstractPLC) : (MemoryVariable * MemoryVariable) * AbstractPLC :=
  let p1 := set__outputs p
    (od_set label
       (PWMOutput pin label (pin_factory p) init_value frame_width
          min_pulse_width max_pulse_width min_value max_value)
       (_outputs p)) in
  let mv := {| curr_state := init_value; prev_state := init_value;
               single_bit := false; decimal_precision := 3 |} in
  let p2 := set_output_registry p1 (od_set label mv (output_registry p1)) in
  let status := {| curr_state := VInt 0; prev_state := VInt 0;
                   single_bit := false; decimal_precision := decimal_precision |} in
  let p3 := set_input_registry p2 (od_set (label ++ "_status")%string status (input_registry p2)) in
  ((mv, status), p3).

Definition add_step (label : string) (init_value : value)
    (p : AbstractPLC) : MemoryVariable * AbstractPLC :=
  let step := {| curr_state := init_value; prev_state := init_value;
                 single_bit := true; decimal_precision := 3 |} in
  (step, set_step_registry p (od_set label step (step_registry p))).

(** [exit_handler], the handler installed for SIGTSTP. *)
Definition exit_handler (p : AbstractPLC) : AbstractPLC := set__exit p true.

(** *** The collaborators *)

(** What the engine consumes from outside [plc.py].  A binding's [read]
    returns a value or fails with an [InternalCommunicationError] of
    some description, its [write] returns or fails in the same way;
    both may change the world.  [sigtstp w] tells whether the operator
    has pressed Ctrl-Z by the time the world is [w].

    Modelled from the spec: [EmailNotification.send] ([email_notification.py]
    is not among the sources).  The specification gives the notifier as
    [notify(message) -> ()], best effort: the call returns, and whether
    the message went out ([true]) or not is a fact of the world only. *)
Class Hardware : Type := {
  gpio_read : GPIO -> W -> (value + string) * W;
  gpio_write : GPIO -> value -> W -> option string * W;
  eml_send : EmailNotification -> string -> W -> bool * W;
  sigtstp : W -> bool
}.

(** The three abstract methods a PLC application overrides.  Each may
    change every attribute of the PLC and the world, and returns or
    raises. *)
Class Application : Type := {
  control_routine : AbstractPLC -> result unit * AbstractPLC;
  exit_routine : AbstractPLC -> result unit * AbstractPLC;
  emergency_routine : AbstractPLC -> result unit * AbstractPLC
}.

Context {hw : Hardware} {app : Application}.

(** *** The monad of the engine

    A method takes the PLC, and gives how it ended, the PLC it leaves
    and the calls it made. *)
Definition M (A : Type) : Type := AbstractPLC -> result A * AbstractPLC * list event.

Definition ret {A : Type} (a : A) : M A := fun p => (Return a, p, []).

Definition raise {A : Type} (e : exn) : M A := fun p => (Raise e, p, []).

Definition bind {A B : Type} (m : M A) (f : A -> M B) : M B :=
  fun p =>
    match m p with
    | (Return a, p1, t1) => let '(r, p2, t2) := f a p1 in (r, p2, t1 ++ t2)
    | (Raise e, p1, t1) => (Raise e, p1, t1)
    end.

Definition get : M AbstractPLC := fun p => (Return p, p, []).

Definition modify (f : AbstractPLC -> AbstractPLC) : M unit := fun p => (Return tt, f p, []).

Definition emit (ev : event) : M unit := fun p => (Return tt, p, [ev]).

(** [try: m except <the exceptions h accepts>: h e]. *)
Definition try_except {A : Type} (m : M A) (h : exn -> option (M A)) : M A :=
  fun p =>
    match m p with
    | (Return a, p1, t1) => (Return a, p1, t1)
    | (Raise e, p1, t1) =>
        match h e with
        | Some handler => let '(r, p2, t2) := handler p1 in (r, p2, t1 ++ t2)
        | None => (Raise e, p1, t1)
        end
    end.

(** [try: m finally: fin]: [fin] runs however [m] ended; what [m]
    returned or raised stands unless [fin] itself raises. *)
Definition try_finally {A : Type} (m : M A) (fin : M unit) : M A :=
  fun p =>
    let '(r, p1, t1) := m p in
    match fin p1 with
    | (Return _, p2, t2) => (r, p2, t1 ++ t2)
    | (Raise e, p2, t2) => (Raise e, p2, t1 ++ t2)
    end.

Fixpoint for_each {X : Type} (xs : list X) (body : X -> M unit) : M unit :=
  match xs with
  | [] => ret tt
  | x :: xs' => bind (body x) (fun _ => for_each xs' body)
  end.

(** A routine of the application, called by the engine. *)
Definition routine (ev : event) (f : AbstractPLC -> result unit * AbstractPLC) : M unit :=
  fun p => let '(r, p1) := f p in (r, p1, [ev]).

(** A signal that arrives while a statement of [run] executes has its
    handler run before the statement is over. *)
Definition deliver_signals (p : AbstractPLC) : AbstractPLC :=
  if sigtstp (world p) then exit_handler p else p.

Definition stmt {A : Type} (m : M A) : M A :=
  fun p => let '(r, p1, t) := m p in (r, deliver_signals p1, t).

Notation "x <- c1 ;; c2" := (bind c1 (fun x => c2))
  (at level 61, c1 at next level, right associativity).
Notation "c1 ;; c2" := (bind c1 (fun _ => c2))
  (at level 61, right associativity).

(** *** The methods of the engine *)

(** [registry[key]], a [KeyError] when the key is absent. *)
Definition getitem (registry : AbstractPLC -> odict MemoryVariable) (key : string)
    : M MemoryVariable :=
  fun p =>
    match od_get key (registry p) with
    | Some mv => (Return mv, p, [])
    | None => (Raise (KeyError key), p, [])
    end.

(** [binding.read()]. *)
Definition read (g : GPIO) : M value :=
  fun p =>
    match gpio_read g (world p) with
    | (inl v, w) => (Return v, set_world p w, [EvRead (label g) (inl v)])
    | (inr d, w) =>
        (Raise (InternalCommunicationError d), set_world p w, [EvRead (label g) (inr d)])
    end.

(** [binding.write(v)]. *)
Definition write (g : GPIO) (v : value) : M unit :=
  fun p =>
    match gpio_write g v (world p) with
    | (None, w) => (Return tt, set_world p w, [EvWrite (label g) v])
    | (Some d, w) =>
        (Raise (InternalCommunicationError d), set_world p w, [EvWrite (label g) v])
    end.

(** [self.eml_notification.send(msg)]. *)
Definition send (n : EmailNotification) (msg : string) : M unit :=
  fun p =>
    let '(_, w) := eml_send n msg (world p) in
    (Return tt, set_world p w, [EvNotify msg]).

(** [sys.exit(msg)]. *)
Definition sys_exit {A : Type} (msg : string) : M A :=
  emit (EvSysExit msg) ;; raise (SystemExit msg).

(** [int_com_error_handler(error)], given [error.description]. *)
Definition int_com_error_handler (description : string) : M unit :=
  let msg := ("program interrupted: " ++ description)%string in
  emit (EvLogError msg) ;;
  p <- get ;;
  match eml_notification p with
  | Some n => send n msg
  | None => ret tt
  end ;;
  sys_exit msg.



(** The [except InternalCommunicationError as error] clause of
    [read_inputs] and [write_outputs]. *)
Definition except_InternalCommunicationError (e : exn) : option (M unit) :=
  match e with
  | InternalCommunicationError description => Some (int_com_error_handler description)
  | _ => None
  end.

(** The body of the first loop of [read_inputs]: the registry entry is
    looked up, then the binding is read, then the entry is updated. *)
Definition read_input (input_ : GPIO) : M unit :=
  mv <- getitem input_registry (label input_) ;;
  v <- read input_ ;;
  modify (fun p =>
    set_input_registry p (od_set (label input_) (update mv v) (input_registry p))).

(** The body of its second loop. *)
Definition read_status (output : GPIO) : M unit :=
  mv <- getitem input_registry (label output ++ "_status")%string ;;
  v <- read output ;;
  modify (fun p =>
    set_input_registry p
      (od_set (label output ++ "_status")%string (update mv v) (input_registry p))).

Definition read_inputs : M unit :=
  emit EvReadInputs ;;
  try_except
    (p <- get ;;
     for_each (od_values (_inputs p)) read_input ;;
     p' <- get ;;
     for_each (od_values (_outputs p')) read_status)
    except_InternalCommunicationError.

(** The body of the loop of [write_outputs]. *)
Definition write_output (output : GPIO) : M unit :=
  mv <- getitem output_registry (label output) ;;
  write output (curr_state mv).

Definition write_outputs : M unit :=
  emit EvWriteOutputs ;;
  try_except
    (p <- get ;;
     for_each (od_values (_outputs p)) write_output)
    except_InternalCommunicationError.

Definition update_registries : M unit :=
  emit EvUpdateRegistries ;;
  modify (fun p =>
    set_step_registry p
      (od_map (fun step => update step (curr_state step)) (step_registry p))) ;;
  modify (fun p =>
    set_output_registry p
      (od_map (fun output => update output (curr_state output)) (output_registry p))).

(** The [except EmergencyException] clause of [run]: the emergency
    routine, then [return]. *)
Definition except_EmergencyException (e : exn) : option (M loop_exit) :=
  match e with
  | EmergencyException =>
      Some (stmt (routine EvEmergencyRoutine emergency_routine) ;; ret Returned)
  | _ => None
  end.

(** The first two statements of the [try] block of [run]. *)
Definition advance_and_input : M unit :=
  stmt update_registries ;;
  stmt read_inputs.

(** The [try] block: falling off its end leads back to the loop head. *)
Definition try_block : M loop_exit :=
  stmt update_registries ;;
  stmt read_inputs ;;
  stmt (routine EvControlRoutine control_routine) ;;
  ret Continue.

(** One iteration of the [while] loop of [run]. *)
Definition scan_cycle : M loop_exit :=
  try_finally
    (try_except try_block except_EmergencyException)
    (stmt write_outputs).

(** The [else] clause of the [while] loop. *)
Definition while_else : M unit :=
  stmt (routine EvExitRoutine exit_routine) ;;
  stmt write_outputs.

(** [run].  The loop need not end, so the iterations are counted:
    [run fuel p] is [None] when [fuel] iterations do not bring the loop
    to its end. *)
Fixpoint run (fuel : nat) (p : AbstractPLC)
    : option (result unit * AbstractPLC * list event) :=
  match fuel with
  | O => None
  | S fuel' =>
      if _exit p then Some (while_else p)
      else
        match scan_cycle p with
        | (Return Continue, p1, t1) =>
            match run fuel' p1 with
            | Some (r, p2, t2) => Some (r, p2, t1 ++ t2)
            | None => None
            end
        | (Return Returned, p1, t1) => Some (Return tt, p1, t1)
        | (Raise e, p1, t1) => Some (Raise e, p1, t1)
        end
  end.

(** [normal_cycles k p]: the PLC after [k] iterations of the loop and
    the calls made in them, when each iteration found the stop flag
    down and fell through to the loop head. *)
Fixpoint normal_cycles (k : nat) (p : AbstractPLC) : option (AbstractPLC * list event) :=
  match k with
  | O => Some (p, [])
  | S k' =>
      if _exit p then None
      else
        match scan_cycle p with
        | (Return Continue, p1, t1) =>
            match normal_cycles k' p1 with
            | Some (p2, t2) => Some (p2, t1 ++ t2)
            | None => None
            end
        | _ => None
        end
  end.

(** *** Notions used to state the facts below *)

#[local] Abbreviation PLC := AbstractPLC.
#[local] Abbreviation binding := GPIO.

(** What [update_registries] does to one variable. *)
Definition restamp (mv : MemoryVariable) : MemoryVariable := update mv (curr_state mv).

(** The PLC that [update_registries] leaves. *)
Definition advance (p : PLC) : PLC := snd (fst (update_registries p)).

(** [written p g ev]: [ev] is the call of [write] on the binding [g]
    with the current state of its entry in the output registry of [p]. *)
Definition written (p : PLC) (g : binding) (ev : event) : Prop :=
  exists mv, od_get (label g) (output_registry p) = Some mv /\
             ev = EvWrite (label g) (curr_state mv).

(** A dictionary of bindings as the [add_] methods build it: no key
    twice, and every binding under its own label. *)
Definition wf_bindings (d : odict binding) : Prop :=
  NoDup (od_keys d) /\ Forall (fun kv => label (snd kv) = fst kv) d.

(** The body of either loop of [read_inputs], with the key of the
    registry entry as a function of the binding. *)
Definition read_entry (key : binding -> string) (g : binding) : M unit :=
  bind (getitem input_registry (key g)) (fun mv =>
  bind (read g) (fun v =>
  modify (fun p =>
    set_input_registry p (od_set (key g) (update mv v) (input_registry p))))).

(** The key of the status entry of an output: [f"{output.label}_status"]. *)
Definition status_key (g : binding) : string := (label g ++ "_status")%string.

End Engine.

(** ** A test bench

    A concrete world to run the engine in: bindings that read [True]
    unless their label is listed as broken, a control routine that
    counts its calls, switches the output "valve" on and raises the
    emergency at a chosen call, and an operator who presses Ctrl-Z once
    the control routine has been called a chosen number of times. *)
Module Bench.

Record plant : Type := {
  ticks : nat;
  bad_reads : list string;
  bad_writes : list string;
  stop_at : option nat;
  emergency_at : option nat
}.

Definition tick (w : plant) : plant :=
  {| ticks := S (ticks w); bad_reads := bad_reads w; bad_writes := bad_writes w;
     stop_at := stop_at w; emergency_at := emergency_at w |}.

Definition listed (l : string) (ls : list string) : bool := existsb (String.eqb l) ls.

Definition PLC : Type := @AbstractPLC plant unit string.

#[global] Instance hardware : @Hardware plant unit string := {
  gpio_read g w :=
    if listed (label g) (bad_reads w) then (inr "no reply", w) else (inl (VBool true), w);
  gpio_write g v w :=
    if listed (label g) (bad_writes w) then (Some "no reply", w) else (None, w);
  eml_send n msg w := (false, w);
  sigtstp w :=
    match stop_at w with
    | Some n => Nat.leb n (ticks w)
    | None => false
    end
}.

Definition switch_on (l : string) (p : PLC) : PLC :=
  match od_get l (output_registry p) with
  | Some mv => set_output_registry p (od_set l (snd (activate mv)) (output_registry p))
  | None => p
  end.

#[global] Instance application : @Application plant unit string := {
  control_routine p :=
    let p1 := switch_on "valve" (set_world p (tick (world p))) in
    match emergency_at (world p1) with
    | Some n =>
        if Nat.eqb n (ticks (world p1)) then (Raise EmergencyException, p1)
        else (Return tt, p1)
    | None => (Return tt, p1)
    end;
  exit_routine p := (Return tt, p);
  emergency_routine p := (Return tt, p)
}.

Definition quiet : plant :=
  {| ticks := 0; bad_reads := []; bad_writes := []; stop_at := None; emergency_at := None |}.

(** The control routine raises the emergency at its third call. *)
Definition emergency_on_third : plant :=
  {| ticks := 0; bad_reads := []; bad_writes := []; stop_at := None;
     emergency_at := Some 3 |}.

(** Ctrl-Z is pressed during the second call of the control routine. *)
Definition stop_in_second : plant :=
  {| ticks := 0; bad_reads := []; bad_writes := []; stop_at := Some 2;
     emergency_at := None |}.

(** The input "start" cannot be read. *)
Definition broken_input : plant :=
  {| ticks := 0; bad_reads := ["start"]; bad_writes := []; stop_at := None;
     emergency_at := None |}.

(** Neither can the output "valve" be written. *)
Definition broken_input_and_output : plant :=
  {| ticks := 0; bad_reads := ["start"]; bad_writes := ["valve"]; stop_at := None;
     emergency_at := None |}.

(** The input "start" cannot be read, and Ctrl-Z is pressed at once. *)
Definition broken_input_and_stop : plant :=
  {| ticks := 0; bad_reads := ["start"]; bad_writes := []; stop_at := Some 0;
     emergency_at := None |}.

(** The output "valve" cannot be written. *)
Definition broken_output : plant :=
  {| ticks := 0; bad_reads := []; bad_writes := ["valve"]; stop_at := None;
     emergency_at := None |}.

(** An application whose control routine uses a bit-only operation on
    a variable that is not single bit: it raises [ValueError]. *)
Definition careless : @Application plant unit string := {|
  control_routine p := (Raise not_single_bit, set_world p (tick (world p)));
  exit_routine p := (Return tt, p);
  emergency_routine p := (Return tt, p)
|}.

(** A PLC with the input "start" and the output "valve". *)
Definition plc (w : plant) : PLC :=
  let p0 := AbstractPLC_init None None w in
  let p1 := snd (add_digital_input (PinNumber 17) "start" (Some false) p0) in
  snd (add_digital_output (PinNumber 27) "valve" (VInt 0) p1).

(** The same with a second output "lamp" and a notifier. *)
Definition plc2 (w : plant) : PLC :=
  let p0 := AbstractPLC_init None (Some "operator@plant") w in
  let p1 := snd (add_digital_input (PinNumber 17) "start" (Some false) p0) in
  let p2 := snd (add_digital_output (PinNumber 27) "valve" (VInt 0) p1) in
  snd (add_digital_output (PinNumber 22) "lamp" (VInt 1) p2).

(** A PLC with one PWM output "fan". *)
Definition plc_pwm (w : plant) : PLC :=
  let p0 := AbstractPLC_init None None w in
  snd (add_pwm_output (PinNumber 18) "fan" (VFloat 0.5) (VFloat 20) (VFloat 1)
         (VFloat 2) (VFloat 0) (VFloat 1) 0 p0).

(** A PLC with an input bound under the label of an output's status
    entry. *)
Definition plc_clash (w : plant) : PLC :=
  let p0 := AbstractPLC_init None None w in
  let p1 := snd (add_digital_input (PinNumber 17) "valve_status" (Some false) p0) in
  snd (add_digital_output (PinNumber 27) "valve" (VInt 0) p1).

Definition trace_of (r : option (result unit * PLC * list event)) : list event :=
  match r with
  | Some (_, _, t) => t
  | None => []
  end.

Definition outcome_of (r : option (result unit * PLC * list event)) : option (result unit) :=
  match r with
  | Some (o, _, _) => Some o
  | None => None
  end.

End Bench.

(** ** Facts about [MemoryVariable] *)

Example truthy_float_zero : truthy (VFloat 0%float) = false /\ truthy (VFloat (-0)%float) = false.
Proof. split; reflexivity. Qed.

Example truthy_float_half : truthy (VFloat 0.5%float) = true.
Proof. reflexivity. Qed.

Example update_twice :
  update (update MemoryVariable_default (VInt 1)) (VInt 1)
  = {| curr_state := VInt 1; prev_state := VInt 1;
       single_bit := true; decimal_precision := 3 |}.
Proof. reflexivity. Qed.

Lemma active_truthy mv : active mv = truthy (curr_state mv).
Proof. unfold active. now destruct (truthy (curr_state mv)). Qed.

Lemma raising_edge_single_bit mv :
  single_bit mv = true ->
  raising_edge mv = Return (truthy (curr_state mv) && negb (truthy (prev_state mv))).
Proof.
  intros Hsb. unfold raising_edge. rewrite Hsb.
  now destruct (truthy (curr_state mv) && negb (truthy (prev_state mv))).
Qed.

Lemma falling_edge_single_bit mv :
  single_bit mv = true ->
  falling_edge mv = Return (truthy (prev_state mv) && negb (truthy (curr_state mv))).
Proof.
  intros Hsb. unfold falling_edge. rewrite Hsb.
  now destruct (truthy (prev_state mv) && negb (truthy (curr_state mv))).
Qed.

(** C5. [update v] moves the current state into the previous state and
    stores [v] as the current state; [single_bit] and
    [decimal_precision] are untouched, and the call is total: it has a
    result for every variable and every value. *)
Theorem update_shifts_state (mv : MemoryVariable) (v : value) :
  prev_state (update mv v) = curr_state mv /\
  curr_state (update mv v) = v /\
  single_bit (update mv v) = single_bit mv /\
  decimal_precision (update mv v) = decimal_precision mv.
Proof. unfold update, set_curr_state, set_prev_state; simpl. tauto. Qed.

(** C6. On a single-bit variable both edge queries return a boolean:
    [raising_edge] is true exactly when the previous state is falsy and
    the current one truthy, [falling_edge] exactly when the previous
    state is truthy and the current one falsy, and after an [update]
    that stores the value the variable already held both are false.
    The queries are functions of the variable: nothing is assigned. *)
Theorem edges_of_single_bit (mv : MemoryVariable) (Hsb : single_bit mv = true) :
  (exists b, raising_edge mv = Return b) /\
  (exists b, falling_edge mv = Return b) /\
  (raising_edge mv = Return true <->
     truthy (prev_state mv) = false /\ truthy (curr_state mv) = true) /\
  (falling_edge mv = Return true <->
     truthy (prev_state mv) = true /\ truthy (curr_state mv) = false) /\
  (forall v, truthy v = truthy (curr_state mv) ->
     raising_edge (update mv v) = Return false /\
     falling_edge (update mv v) = Return false).
Proof.
  rewrite (raising_edge_single_bit mv Hsb), (falling_edge_single_bit mv Hsb).
  split; [eauto|]. split; [eauto|]. split; [|split].
  - split.
    + intros E; injection E as E. apply andb_true_iff in E as [Ec Ep].
      now apply negb_true_iff in Ep.
    + intros [Ep Ec]. now rewrite Ep, Ec.
  - split.
    + intros E; injection E as E. apply andb_true_iff in E as [Ep Ec].
      now apply negb_true_iff in Ec.
    + intros [Ep Ec]. now rewrite Ep, Ec.
  - intros v Hv.
    rewrite raising_edge_single_bit, falling_edge_single_bit by exact Hsb.
    simpl. rewrite Hv. now destruct (truthy (curr_state mv)).
Qed.

Lemma edges_of_single_bit_witness :
  raising_edge (update MemoryVariable_default (VBool true)) = Return true <->
  truthy (prev_state (update MemoryVariable_default (VBool true))) = false /\
  truthy (curr_state (update MemoryVariable_default (VBool true))) = true.
Proof.
  exact (proj1 (proj2 (proj2
    (edges_of_single_bit (update MemoryVariable_default (VBool true)) eq_refl)))).
Defined.

(** C8. On a variable that is not single bit the four bit-only
    operations raise the same [ValueError] (the error kind the
    specification calls TypeMismatch), whatever the two states hold,
    and [activate] and [deactivate] leave the variable as it was. *)
Theorem bit_only_operations_raise (mv : MemoryVariable) (Hsb : single_bit mv = false) :
  raising_edge mv = Raise (ValueError "Memory variable is not single bit.") /\
  falling_edge mv = Raise (ValueError "Memory variable is not single bit.") /\
  activate mv = (Raise (ValueError "Memory variable is not single bit."), mv) /\
  deactivate mv = (Raise (ValueError "Memory variable is not single bit."), mv).
Proof.
  unfold raising_edge, falling_edge, activate, deactivate, not_single_bit.
  rewrite Hsb. repeat split.
Qed.

Lemma bit_only_operations_raise_witness :
  activate {| curr_state := VFloat 0.5; prev_state := VInt 0;
              single_bit := false; decimal_precision := 0 |}
  = (Raise (ValueError "Memory variable is not single bit."),
     {| curr_state := VFloat 0.5; prev_state := VInt 0;
        single_bit := false; decimal_precision := 0 |}).
Proof.
  exact (proj1 (proj2 (proj2
    (bit_only_operations_raise
       {| curr_state := VFloat 0.5; prev_state := VInt 0;
          single_bit := false; decimal_precision := 0 |} eq_refl)))).
Defined.

(** X1. The two edge queries never hold together, a raising edge
    implies that the variable is active and a falling edge that it is
    not, whatever the variable. *)
Theorem edges_exclusive (mv : MemoryVariable) :
  ~ (raising_edge mv = Return true /\ falling_edge mv = Return true) /\
  (raising_edge mv = Return true -> active mv = true) /\
  (falling_edge mv = Return true -> active mv = false).
Proof.
  unfold raising_edge, falling_edge. rewrite active_truthy.
  destruct (single_bit mv), (truthy (curr_state mv)), (truthy (prev_state mv)); simpl;
    repeat split; try discriminate; try reflexivity; intros [? ?]; discriminate.
Qed.

(** X2. On a single-bit variable [activate] and [deactivate] return and
    shift the state like [update]: after [activate] the variable is
    active, with a raising edge exactly when it was not active before
    and no falling edge; after [deactivate] it is not active, with a
    falling edge exactly when it was active before.  A second
    [activate] in a row clears the raising edge, and [deactivate] right
    after [activate] gives a falling edge. *)
Theorem activate_deactivate_single_bit (mv : MemoryVariable) (Hsb : single_bit mv = true) :
  let on := snd (activate mv) in
  let off := snd (deactivate mv) in
  fst (activate mv) = Return tt /\ fst (deactivate mv) = Return tt /\
  active on = true /\ prev_state on = curr_state mv /\
  raising_edge on = Return (negb (active mv)) /\ falling_edge on = Return false /\
  active off = false /\ prev_state off = curr_state mv /\
  falling_edge off = Return (active mv) /\ raising_edge off = Return false /\
  raising_edge (snd (activate on)) = Return false /\
  falling_edge (snd (deactivate on)) = Return true.
Proof.
  cbv zeta. unfold activate, deactivate. rewrite Hsb. cbn [fst snd].
  unfold raising_edge, falling_edge, active. cbn. rewrite Hsb. cbn.
  destruct (truthy (curr_state mv)); repeat split; now rewrite Hsb.
Qed.

Lemma activate_deactivate_single_bit_witness :
  raising_edge (snd (activate MemoryVariable_default)) = Return true /\
  falling_edge (snd (deactivate (snd (activate MemoryVariable_default)))) = Return true.
Proof.
  destruct (activate_deactivate_single_bit MemoryVariable_default eq_refl)
    as (_ & _ & _ & _ & H1 & _ & _ & _ & _ & _ & _ & H2).
  split; [exact H1|exact H2].
Defined.

(** ** Facts about dictionaries *)

Section Dictionaries.

Context {V : Type}.

Lemma od_get_set_eq (k : string) (v : V) (d : odict V) :
  od_get k (od_set k v d) = Some v.
Proof.
  induction d as [|[k' v'] d IH]; simpl.
  - now rewrite String.eqb_refl.
  - destruct (String.eqb k k') eqn:E; simpl; rewrite ?String.eqb_refl, ?E; auto.
Qed.

Lemma od_get_set_ne (k k' : string) (v : V) (d : odict V) :
  k <> k' -> od_get k (od_set k' v d) = od_get k d.
Proof.
  intros Hne. induction d as [|[k0 v0] d IH]; simpl.
  - apply String.eqb_neq in Hne. now rewrite Hne.
  - destruct (String.eqb k' k0) eqn:E; simpl.
    + apply String.eqb_eq in E; subst k0.
      apply String.eqb_neq in Hne. now rewrite Hne.
    + now rewrite IH.
Qed.

Lemma od_get_map (f : V -> V) (k : string) (d : odict V) :
  od_get k (od_map f d) = option_map f (od_get k d).
Proof.
  induction d as [|[k' v'] d IH]; simpl; auto.
  now destruct (String.eqb k k').
Qed.

Lemma od_keys_map (f : V -> V) (d : odict V) : od_keys (od_map f d) = od_keys d.
Proof. unfold od_keys, od_map. rewrite map_map. reflexivity. Qed.

Lemma od_keys_set (k : string) (v : V) (d : odict V) :
  od_keys (od_set k v d) = if existsb (String.eqb k) (od_keys d) then od_keys d
                           else od_keys d ++ [k].
Proof.
  induction d as [|[k' v'] d IH]; simpl; auto.
  destruct (String.eqb k k') eqn:E; simpl.
  - apply String.eqb_eq in E. now subst.
  - rewrite IH. now destruct (existsb (String.eqb k) (od_keys d)).
Qed.

Lemma od_keys_set_NoDup (k : string) (v : V) (d : odict V) :
  NoDup (od_keys d) -> NoDup (od_keys (od_set k v d)).
Proof.
  intros Hnd. rewrite od_keys_set.
  destruct (existsb (String.eqb k) (od_keys d)) eqn:E; auto.
  apply NoDup_app; auto.
  - repeat constructor. simpl. tauto.
  - intros k' Hin [Hk|[]]. subst k'.
    assert (existsb (String.eqb k) (od_keys d) = true) as Habs.
    { apply existsb_exists. exists k. split; auto. apply String.eqb_refl. }
    congruence.
Qed.

Lemma od_set_In (k : string) (v : V) (d : odict V) : In (k, v) (od_set k v d).
Proof.
  induction d as [|[k' v'] d IH]; simpl; auto.
  destruct (String.eqb k k'); simpl; auto.
Qed.

Lemma od_set_Forall (P : string * V -> Prop) (k : string) (v : V) (d : odict V) :
  P (k, v) -> Forall P d -> Forall P (od_set k v d).
Proof.
  intros Hkv Hd. induction Hd as [|[k' v'] d Hx Hd IH]; simpl.
  - repeat constructor; auto.
  - destruct (String.eqb k k'); constructor; auto.
Qed.

Lemma od_set_In_inv (k : string) (v : V) (d : odict V) (kv : string * V) :
  In kv (od_set k v d) -> kv = (k, v) \/ In kv d.
Proof.
  induction d as [|[k' v'] d IH]; simpl.
  - intros [H|[]]; auto.
  - destruct (String.eqb k k'); simpl; intros [H|H]; auto.
    apply IH in H. tauto.
Qed.

End Dictionaries.

Lemma exn_is_emergency (e : exn) : e = EmergencyException \/ e <> EmergencyException.
Proof. destruct e; auto; right; discriminate. Qed.

Lemma triple_eta {A B C : Type} (x : A * B * C) : x = (fst (fst x), snd (fst x), snd x).
Proof. now destruct x as [[a b] c]. Qed.

Lemma NoDup_map_injective {A B : Type} (f : A -> B) (l : list A) :
  (forall a b, f a = f b -> a = b) -> NoDup l -> NoDup (map f l).
Proof.
  intros Hinj Hnd. induction Hnd as [|a l Ha Hnd IH]; simpl; constructor; auto.
  intros Hin. apply in_map_iff in Hin as (b & Hb & Hin).
  apply Hinj in Hb. now subst.
Qed.

Lemma length_append (s t : string) :
  String.length (s ++ t)%string = String.length s + String.length t.
Proof. induction s as [|c s IH]; simpl; auto. Qed.

Lemma append_inj_l (t s1 s2 : string) : (s1 ++ t = s2 ++ t)%string -> s1 = s2.
Proof.
  revert s2. induction s1 as [|c s1 IH]; intros [|c2 s2] H; simpl in *; auto.
  - exfalso. apply (f_equal String.length) in H. simpl in H.
    rewrite length_append in H. lia.
  - exfalso. apply (f_equal String.length) in H. simpl in H.
    rewrite length_append in H. lia.
  - injection H as Hc Hs. f_equal; auto.
Qed.

(** ** Facts about the engine *)

Section EngineFacts.

Context {W PiFactory EmailNotification : Type}.
Context {hw : @Hardware W PiFactory EmailNotification}.
Context {app : @Application W PiFactory EmailNotification}.

#[local] Abbreviation PLC := (@AbstractPLC W PiFactory EmailNotification).
#[local] Abbreviation binding := (@GPIO PiFactory).

(** *** The error handler *)


(** *** The advance phase *)

Lemma restamp_idempotent mv : restamp (restamp mv) = restamp mv.
Proof. reflexivity. Qed.

Lemma od_map_restamp_idempotent (d : odict MemoryVariable) :
  od_map restamp (od_map restamp d) = od_map restamp d.
Proof.
  unfold od_map. rewrite map_map. apply map_ext. intros [k mv]. reflexivity.
Qed.

Lemma update_registries_eq (p : PLC) :
  update_registries p
  = (Return tt,
     set_output_registry
       (set_step_registry p (od_map restamp (step_registry p)))
       (od_map restamp (output_registry p)),
     [EvUpdateRegistries]).
Proof. reflexivity. Qed.

Lemma advance_registries (p : PLC) :
  step_registry (advance p) = od_map restamp (step_registry p) /\
  output_registry (advance p) = od_map restamp (output_registry p) /\
  input_registry (advance p) = input_registry p.
Proof. unfold advance. rewrite update_registries_eq. simpl. auto. Qed.

Lemma advance_iter_registries (n : nat) (p : PLC) :
  step_registry (Nat.iter (S n) advance p) = od_map restamp (step_registry p) /\
  output_registry (Nat.iter (S n) advance p) = od_map restamp (output_registry p) /\
  input_registry (Nat.iter (S n) advance p) = input_registry p.
Proof.
  induction n as [|n IH].
  - apply advance_registries.
  - change (Nat.iter (S (S n)) advance p) with (advance (Nat.iter (S n) advance p)).
    destruct IH as (IHs & IHo & IHi).
    destruct (advance_registries (Nat.iter (S n) advance p)) as (Hs & Ho & Hi).
    rewrite Hs, Ho, Hi, IHs, IHo, IHi, !od_map_restamp_idempotent. auto.
Qed.

Lemma restamp_edges (mv : MemoryVariable) :
  (single_bit mv = true ->
     raising_edge (restamp mv) = Return false /\ falling_edge (restamp mv) = Return false) /\
  (single_bit mv = false ->
     raising_edge (restamp mv) = Raise not_single_bit /\
     falling_edge (restamp mv) = Raise not_single_bit).
Proof.
  unfold raising_edge, falling_edge, restamp. simpl. split; intros ->.
  - now destruct (truthy (curr_state mv)).
  - auto.
Qed.

(** C7 (amended). The advance phase returns, leaves the input registry
    and the bindings as they are, and replaces every step variable and
    every output variable by its re-stamped self: same current state,
    previous state equal to it, other attributes untouched.  After one
    advance phase or more with nothing in between, both edge queries
    are false on every single-bit step or output variable; on a
    variable that is not single bit they raise [ValueError] as they
    always do. *)
Theorem update_registries_restamps (p : PLC) (n : nat) :
  update_registries p = (Return tt, advance p, [EvUpdateRegistries]) /\
  input_registry (advance p) = input_registry p /\
  _inputs (advance p) = _inputs p /\
  _outputs (advance p) = _outputs p /\
  (forall l, od_get l (step_registry (advance p))
             = option_map restamp (od_get l (step_registry p))) /\
  (forall l, od_get l (output_registry (advance p))
             = option_map restamp (od_get l (output_registry p))) /\
  (forall mv, curr_state (restamp mv) = curr_state mv /\
              prev_state (restamp mv) = curr_state mv /\
              single_bit (restamp mv) = single_bit mv /\
              decimal_precision (restamp mv) = decimal_precision mv) /\
  (forall l mv,
     od_get l (step_registry (Nat.iter (S n) advance p)) = Some mv \/
     od_get l (output_registry (Nat.iter (S n) advance p)) = Some mv ->
     prev_state mv = curr_state mv /\
     (single_bit mv = true ->
        raising_edge mv = Return false /\ falling_edge mv = Return false) /\
     (single_bit mv = false ->
        raising_edge mv = Raise (ValueError "Memory variable is not single bit.") /\
        falling_edge mv = Raise (ValueError "Memory variable is not single bit."))).
Proof.
  destruct (advance_registries p) as (Hs & Ho & Hi).
  split; [reflexivity|]. split; [exact Hi|]. split; [reflexivity|]. split; [reflexivity|].
  split; [intros l; rewrite Hs; apply od_get_map|].
  split; [intros l; rewrite Ho; apply od_get_map|].
  split; [intros mv; repeat split|].
  intros l mv Hget.
  destruct (advance_iter_registries n p) as (Hsn & Hon & _).
  rewrite Hsn, Hon, !od_get_map in Hget.
  assert (exists mv0, mv = restamp mv0) as [mv0 ->].
  { destruct Hget as [H|H];
      [destruct (od_get l (step_registry p)) as [mv0|]
      |destruct (od_get l (output_registry p)) as [mv0|]];
      simpl in H; try discriminate; injection H as <-; eauto. }
  split; [reflexivity|]. apply (restamp_edges mv0).
Qed.

(** *** The calls a method makes *)

(** Every call the method [m] makes satisfies [P]. *)
Definition emits {A : Type} (P : event -> Prop) (m : M A) : Prop :=
  forall p : PLC, Forall P (snd (m p)).

Lemma emits_ret {A : Type} P (a : A) : emits P (ret a).
Proof. intros p. constructor. Qed.

Lemma emits_raise {A : Type} P (e : exn) : emits P (@raise _ _ _ A e).
Proof. intros p. constructor. Qed.

Lemma emits_get P : emits P get.
Proof. intros p. constructor. Qed.

Lemma emits_modify P f : emits P (modify f).
Proof. intros p. constructor. Qed.

Lemma emits_emit (P : event -> Prop) ev : P ev -> emits P (emit ev).
Proof. intros H p. repeat constructor. exact H. Qed.

Lemma emits_bind {A B : Type} P (m : M A) (f : A -> M B) :
  emits P m -> (forall a, emits P (f a)) -> emits P (bind m f).
Proof.
  intros Hm Hf p. unfold bind. specialize (Hm p).
  destruct (m p) as [[[a|e] p1] t1]; simpl in *; auto.
  specialize (Hf a p1). destruct (f a p1) as [[r2 p2] t2]; simpl in *.
  apply Forall_app; auto.
Qed.

Lemma emits_try_except {A : Type} P (m : M A) (h : exn -> option (M A)) :
  emits P m -> (forall e handler, h e = Some handler -> emits P handler) ->
  emits P (try_except m h).
Proof.
  intros Hm Hh p. unfold try_except. specialize (Hm p).
  destruct (m p) as [[[a|e] p1] t1]; simpl in *; auto.
  destruct (h e) as [handler|] eqn:E; simpl; auto.
  specialize (Hh e handler E p1). destruct (handler p1) as [[r2 p2] t2]; simpl in *.
  apply Forall_app; auto.
Qed.

Lemma emits_for_each {X : Type} P (xs : list X) (body : X -> M unit) :
  (forall x, emits P (body x)) -> emits P (for_each xs body).
Proof.
  intros Hb. induction xs as [|x xs IH]; simpl.
  - apply emits_ret.
  - apply emits_bind; auto.
Qed.

Lemma emits_getitem P registry key : emits P (getitem registry key).
Proof. intros p. unfold getitem. destruct (od_get key (registry p)); constructor. Qed.

Lemma emits_read (P : event -> Prop) (g : binding) :
  (forall r, P (EvRead (label g) r)) -> emits P (read g).
Proof.
  intros H p. unfold read. destruct (gpio_read g (world p)) as [[v|d] w]; simpl;
    repeat constructor; auto.
Qed.

Lemma emits_write (P : event -> Prop) (g : binding) v :
  P (EvWrite (label g) v) -> emits P (write g v).
Proof.
  intros H p. unfold write. destruct (gpio_write g v (world p)) as [[d|] w]; simpl;
    repeat constructor; auto.
Qed.

Lemma int_com_error_handler_raises (description : string) (p : PLC) :
  exists p' t,
    int_com_error_handler description p
    = (Raise (SystemExit ("program interrupted: " ++ description)%string), p', t) /\
    Forall (fun ev => leaf ev = true) t /\
    filter is_write t = [].
Proof.
  unfold int_com_error_handler, bind, emit, get, sys_exit, raise, send, ret.
  destruct (eml_notification p) as [n|]; simpl.
  - destruct (eml_send n _ (world p)) as [sent w]. simpl.
    eexists _, _. split; [reflexivity|]. split; [repeat constructor|reflexivity].
  - eexists _, _. split; [reflexivity|]. split; [repeat constructor|reflexivity].
Qed.

Lemma emits_int_com_error_handler (P : event -> Prop) description :
  (forall ev, leaf ev = true -> P ev) -> emits P (int_com_error_handler description).
Proof.
  intros H p. destruct (int_com_error_handler_raises description p) as (p' & t & E & Ht & _).
  rewrite E. simpl. eapply Forall_impl; [|exact Ht]. exact H.
Qed.

Lemma emits_except (P : event -> Prop) e handler :
  (forall ev, leaf ev = true -> P ev) ->
  except_InternalCommunicationError e = Some handler -> emits P handler.
Proof.
  intros H E. destruct e; try discriminate. injection E as <-.
  now apply emits_int_com_error_handler.
Qed.

Lemma emits_read_input (P : event -> Prop) g :
  (forall ev, leaf ev = true -> P ev) -> emits P (read_input g).
Proof.
  intros H. unfold read_input. apply emits_bind; [apply emits_getitem|intros mv].
  apply emits_bind; [apply emits_read; intros; now apply H|intros v].
  apply emits_modify.
Qed.

Lemma emits_read_status (P : event -> Prop) g :
  (forall ev, leaf ev = true -> P ev) -> emits P (read_status g).
Proof.
  intros H. unfold read_status. apply emits_bind; [apply emits_getitem|intros mv].
  apply emits_bind; [apply emits_read; intros; now apply H|intros v].
  apply emits_modify.
Qed.

Lemma emits_write_output (P : event -> Prop) g :
  (forall ev, leaf ev = true -> P ev) -> emits P (write_output g).
Proof.
  intros H. unfold write_output. apply emits_bind; [apply emits_getitem|intros mv].
  apply emits_write. now apply H.
Qed.

(** [read_inputs] announces itself and then makes leaf calls only. *)
Lemma read_inputs_trace (p : PLC) :
  exists t, snd (read_inputs p) = EvReadInputs :: t /\ Forall (fun ev => leaf ev = true) t.
Proof.
  unfold read_inputs, bind at 1, emit.
  match goal with |- context [try_except ?m ?h p] =>
    pose proof (emits_try_except (fun ev => leaf ev = true) m h) as Hm;
    destruct (try_except m h p) as [[r p1] t] eqn:E end.
  exists t. split; [reflexivity|].
  assert (Forall (fun ev => leaf ev = true) (snd (r, p1, t))) as Ht; [|exact Ht].
  rewrite <- E. apply Hm.
  - apply emits_bind; [apply emits_get|intros q].
    apply emits_bind; [apply emits_for_each; intros g; now apply emits_read_input|intros _].
    apply emits_bind; [apply emits_get|intros q'].
    apply emits_for_each; intros g; now apply emits_read_status.
  - intros e handler. now apply emits_except.
Qed.

(** So does [write_outputs]. *)
Lemma write_outputs_trace (p : PLC) :
  exists t, snd (write_outputs p) = EvWriteOutputs :: t /\ Forall (fun ev => leaf ev = true) t.
Proof.
  unfold write_outputs, bind at 1, emit.
  match goal with |- context [try_except ?m ?h p] =>
    pose proof (emits_try_except (fun ev => leaf ev = true) m h) as Hm;
    destruct (try_except m h p) as [[r p1] t] eqn:E end.
  exists t. split; [reflexivity|].
  assert (Forall (fun ev => leaf ev = true) (snd (r, p1, t))) as Ht; [|exact Ht].
  rewrite <- E. apply Hm.
  - apply emits_bind; [apply emits_get|intros q].
    apply emits_for_each; intros g; now apply emits_write_output.
  - intros e handler. now apply emits_except.
Qed.

(** *** Counting calls *)

Lemma count_app f t1 t2 : count f (t1 ++ t2) = count f t1 + count f t2.
Proof. unfold count. now rewrite filter_app, length_app. Qed.

Lemma count_nil f : count f [] = 0.
Proof. reflexivity. Qed.

Lemma count_cons f ev t : count f (ev :: t) = (if f ev then 1 else 0) + count f t.
Proof. unfold count. simpl. now destruct (f ev). Qed.

Lemma count_leaves f t :
  (forall ev, leaf ev = true -> f ev = false) ->
  Forall (fun ev => leaf ev = true) t -> count f t = 0.
Proof.
  intros Hf Ht. induction Ht as [|ev t Hev Ht IH]; auto.
  rewrite count_cons, IH, (Hf ev Hev). reflexivity.
Qed.

(** *** One scan cycle *)

Lemma update_registries_stmt (p : PLC) :
  stmt update_registries p
  = (Return tt, deliver_signals (advance p), [EvUpdateRegistries]).
Proof. reflexivity. Qed.

Lemma advance_and_input_eq (p : PLC) :
  advance_and_input p
  = let '(r, p1, t) := stmt read_inputs (deliver_signals (advance p)) in
    (r, p1, EvUpdateRegistries :: t).
Proof.
  unfold advance_and_input, bind. rewrite update_registries_stmt.
  now destruct (stmt read_inputs (deliver_signals (advance p))) as [[r p1] t].
Qed.

Lemma try_block_eq (p : PLC) :
  try_block p
  = match advance_and_input p with
    | (Return _, p1, t1) =>
        let '(r, p2) := control_routine p1 in
        (match r with Return _ => Return Continue | Raise e => Raise e end,
         deliver_signals p2, t1 ++ [EvControlRoutine])
    | (Raise e, p1, t1) => (Raise e, p1, t1)
    end.
Proof.
  unfold try_block, advance_and_input, bind. rewrite update_registries_stmt.
  destruct (stmt read_inputs (deliver_signals (advance p))) as [[[[]|e] p1] t];
    simpl; [|reflexivity].
  unfold stmt, routine, ret.
  destruct (control_routine p1) as [[[]|e] p2]; reflexivity.
Qed.

Lemma stmt_write_outputs_trace (p : PLC) :
  exists t, snd (stmt write_outputs p) = EvWriteOutputs :: t /\
            Forall (fun ev => leaf ev = true) t.
Proof.
  destruct (write_outputs_trace p) as (t & E & Ht). exists t. split; auto.
  unfold stmt. destruct (write_outputs p) as [[r p1] t']. exact E.
Qed.

Lemma advance_and_input_trace (p : PLC) :
  exists t, snd (advance_and_input p) = EvUpdateRegistries :: EvReadInputs :: t /\
            Forall (fun ev => leaf ev = true) t.
Proof.
  rewrite advance_and_input_eq.
  destruct (read_inputs_trace (deliver_signals (advance p))) as (t & E & Ht).
  exists t. split; auto. unfold stmt.
  destruct (read_inputs (deliver_signals (advance p))) as [[r p1] t']. simpl in *.
  now rewrite E.
Qed.

(** The iteration in which the control routine returns. *)
Lemma scan_cycle_normal (p p1 p2 p4 : PLC) t1 t4 r4 :
  advance_and_input p = (Return tt, p1, t1) ->
  control_routine p1 = (Return tt, p2) ->
  stmt write_outputs (deliver_signals p2) = (r4, p4, t4) ->
  scan_cycle p
  = (match r4 with Return _ => Return Continue | Raise e => Raise e end,
     p4, t1 ++ EvControlRoutine :: t4).
Proof.
  intros H1 H2 H4. unfold scan_cycle, try_finally, try_except.
  rewrite try_block_eq, H1, H2, H4. rewrite <- app_assoc. simpl.
  now destruct r4.
Qed.

(** The iteration in which the control routine raises the emergency. *)
Lemma scan_cycle_emergency (p p1 p2 p3 p4 : PLC) t1 t4 r3 r4 :
  advance_and_input p = (Return tt, p1, t1) ->
  control_routine p1 = (Raise EmergencyException, p2) ->
  emergency_routine (deliver_signals p2) = (r3, p3) ->
  stmt write_outputs (deliver_signals p3) = (r4, p4, t4) ->
  scan_cycle p
  = (match r4 with
     | Raise e => Raise e
     | Return _ => match r3 with Return _ => Return Returned | Raise e => Raise e end
     end,
     p4, t1 ++ EvControlRoutine :: EvEmergencyRoutine :: t4).
Proof.
  intros H1 H2 H3 H4. unfold scan_cycle, try_finally, try_except.
  rewrite try_block_eq, H1, H2. simpl.
  unfold bind, stmt at 1, routine, ret. rewrite H3.
  destruct r3 as [[]|e3]; simpl; rewrite H4; rewrite <- !app_assoc; simpl;
    now destruct r4.
Qed.

(** The iteration in which the input phase raises. *)
Lemma scan_cycle_input_raises (p p1 p4 : PLC) t1 t4 r4 e :
  advance_and_input p = (Raise e, p1, t1) ->
  e <> EmergencyException ->
  stmt write_outputs p1 = (r4, p4, t4) ->
  scan_cycle p
  = (match r4 with Raise e' => Raise e' | Return _ => Raise e end, p4, t1 ++ t4).
Proof.
  intros H1 He H4. unfold scan_cycle, try_finally, try_except.
  rewrite try_block_eq, H1.
  destruct e; try congruence; simpl; rewrite H4; now destruct r4.
Qed.

(** An iteration that falls through to the loop head went through its
    four phases, none of which raised. *)
Lemma scan_cycle_Continue (p p' : PLC) t :
  scan_cycle p = (Return Continue, p', t) ->
  exists p1 t1 p2 t4,
    advance_and_input p = (Return tt, p1, t1) /\
    control_routine p1 = (Return tt, p2) /\
    stmt write_outputs (deliver_signals p2) = (Return tt, p', t4) /\
    t = t1 ++ EvControlRoutine :: t4.
Proof.
  intros H.
  destruct (advance_and_input p) as [[[[]|e] p1] t1] eqn:H1.
  - destruct (control_routine p1) as [[[]|e] p2] eqn:H2.
    + destruct (stmt write_outputs (deliver_signals p2)) as [[r4 p4] t4] eqn:H4.
      rewrite (scan_cycle_normal _ _ _ _ _ _ _ H1 H2 H4) in H.
      destruct r4 as [[]|e4]; try discriminate. injection H as <- <-.
      now exists p1, t1, p2, t4.
    + exfalso. unfold scan_cycle, try_finally, try_except in H.
      rewrite try_block_eq, H1, H2 in H. simpl in H.
      destruct (except_EmergencyException e) as [h|] eqn:Ee.
      * destruct e; try discriminate. injection Ee as <-.
        unfold bind, stmt at 1, routine, ret in H.
        destruct (emergency_routine (deliver_signals p2)) as [[[]|e3] p3]; simpl in H;
          destruct (stmt write_outputs _) as [[[[]|e4] p4] t4]; discriminate.
      * destruct (stmt write_outputs _) as [[[[]|e4] p4] t4]; discriminate.
  - exfalso. unfold scan_cycle, try_finally, try_except in H.
    rewrite try_block_eq, H1 in H.
    destruct (except_EmergencyException e) as [h|] eqn:Ee.
    + destruct e; try discriminate. injection Ee as <-.
      unfold bind, stmt at 1, routine, ret in H.
      destruct (emergency_routine p1) as [[[]|e3] p3]; simpl in H;
        destruct (stmt write_outputs _) as [[[[]|e4] p4] t4]; discriminate.
    + destruct (stmt write_outputs _) as [[[[]|e4] p4] t4]; discriminate.
Qed.

Lemma count_calls_of_leaves (t : list event) :
  Forall (fun ev => leaf ev = true) t ->
  count is_emergency_routine t = 0 /\ count is_exit_routine t = 0 /\
  count is_write_outputs t = 0 /\ count is_control_routine t = 0 /\
  count is_cycle_start t = 0.
Proof.
  intros Ht. repeat split; apply count_leaves; auto; intros []; simpl; congruence.
Qed.

#[local] Arguments count : simpl never.

Ltac count_calls :=
  repeat match goal with
  | H : Forall (fun ev => leaf ev = true) ?t |- _ =>
      let Ha := fresh in let Hb := fresh in let Hc := fresh in
      let Hd := fresh in let He := fresh in
      destruct (count_calls_of_leaves t H) as (Ha & Hb & Hc & Hd & He); clear H
  end;
  repeat rewrite ?count_app, ?count_cons, ?count_nil; simpl; lia.

Lemma scan_cycle_Continue_counts (p p' : PLC) t :
  scan_cycle p = (Return Continue, p', t) ->
  count is_emergency_routine t = 0 /\ count is_exit_routine t = 0 /\
  count is_cycle_start t = 1 /\ count is_control_routine t = 1 /\
  count is_write_outputs t = 1.
Proof.
  intros H. apply scan_cycle_Continue in H as (p1 & t1 & p2 & t4 & H1 & H2 & H4 & ->).
  destruct (advance_and_input_trace p) as (tr & Er & Hr). rewrite H1 in Er. simpl in Er.
  destruct (stmt_write_outputs_trace (deliver_signals p2)) as (tw & Ew & Hw).
  rewrite H4 in Ew. simpl in Ew. subst t1 t4.
  repeat split; count_calls.
Qed.

(** *** The loop *)

Lemma normal_cycles_counts (k : nat) (p0 p : PLC) t0 :
  normal_cycles k p0 = Some (p, t0) ->
  count is_emergency_routine t0 = 0 /\ count is_exit_routine t0 = 0 /\
  count is_cycle_start t0 = k /\ count is_control_routine t0 = k.
Proof.
  revert p0 t0. induction k as [|k IH]; intros p0 t0 H; simpl in H.
  - injection H as <- <-. repeat split.
  - destruct (_exit p0); [discriminate|].
    destruct (scan_cycle p0) as [[[[]|e] p1] t1] eqn:Ec; try discriminate.
    destruct (normal_cycles k p1) as [[p2 t2]|] eqn:En; try discriminate.
    injection H as <- <-.
    apply scan_cycle_Continue_counts in Ec as (C1 & C2 & C3 & C4 & _).
    apply IH in En as (D1 & D2 & D3 & D4).
    rewrite !count_app. repeat split; lia.
Qed.

(** Running on after [k] such iterations. *)
Lemma run_normal_cycles (k n : nat) (p0 p : PLC) t0 :
  normal_cycles k p0 = Some (p, t0) ->
  run (k + n) p0
  = match run n p with
    | Some (r, p', t) => Some (r, p', t0 ++ t)
    | None => None
    end.
Proof.
  revert p0 t0. induction k as [|k IH]; intros p0 t0 H; simpl in H.
  - injection H as <- <-. simpl. now destruct (run n p0) as [[[r p'] t]|].
  - destruct (_exit p0) eqn:Ex; [discriminate|].
    destruct (scan_cycle p0) as [[[[]|e] p1] t1] eqn:Ec; try discriminate.
    destruct (normal_cycles k p1) as [[p2 t2]|] eqn:En; try discriminate.
    injection H as <- <-.
    simpl. rewrite Ex, Ec, (IH _ _ En).
    destruct (run n p2) as [[[r p'] t]|]; auto. now rewrite app_assoc.
Qed.

(** C1. Let the control routine raise [EmergencyException] in some
    iteration of [run], after [k] iterations that fell through to the
    loop head.  Then [run] ends in that iteration: the emergency routine
    is called, then [write_outputs], and nothing else.  In the whole run
    the emergency routine is called exactly once and the exit routine
    never; after the call of the emergency routine [write_outputs] is
    called exactly once, and no scan cycle starts. *)
Theorem run_emergency (k n : nat) (p0 p p1 p2 p3 p4 : PLC)
    (t0 t1 t4 : list event) (r3 r4 : result unit) :
  normal_cycles k p0 = Some (p, t0) ->
  _exit p = false ->
  advance_and_input p = (Return tt, p1, t1) ->
  control_routine p1 = (Raise EmergencyException, p2) ->
  emergency_routine (deliver_signals p2) = (r3, p3) ->
  stmt write_outputs (deliver_signals p3) = (r4, p4, t4) ->
  let after := EvEmergencyRoutine :: t4 in
  let t := t0 ++ t1 ++ EvControlRoutine :: after in
  run (k + S n) p0
  = Some (match r4 with Raise e => Raise e | Return _ => r3 end, p4, t) /\
  count is_emergency_routine t = 1 /\
  count is_exit_routine t = 0 /\
  count is_write_outputs t4 = 1 /\
  (exists t', t4 = EvWriteOutputs :: t' /\ Forall (fun ev => leaf ev = true) t') /\
  count is_cycle_start after = 0 /\
  count is_control_routine after = 0.
Proof.
  intros Hk Hx H1 H2 H3 H4 after t.
  destruct (advance_and_input_trace p) as (tr & Er & Hr). rewrite H1 in Er. simpl in Er.
  destruct (stmt_write_outputs_trace (deliver_signals p3)) as (tw & Ew & Hw).
  rewrite H4 in Ew. simpl in Ew.
  destruct (normal_cycles_counts _ _ _ _ Hk) as (K1 & K2 & _).
  split; [|subst t after t1 t4; repeat split; try count_calls].
  - rewrite (run_normal_cycles _ (S n) _ _ _ Hk). simpl. rewrite Hx.
    rewrite (scan_cycle_emergency _ _ _ _ _ _ _ _ _ H1 H2 H3 H4).
    destruct r4 as [[]|e4]; destruct r3 as [[]|e3]; reflexivity.
  - exists tw. split; auto.
Qed.

Lemma while_else_eq (p : PLC) :
  while_else p
  = match exit_routine p with
    | (Return _, p1) =>
        let '(r, p2, t) := stmt write_outputs (deliver_signals p1) in
        (r, p2, EvExitRoutine :: t)
    | (Raise e, p1) => (Raise e, deliver_signals p1, [EvExitRoutine])
    end.
Proof.
  unfold while_else, bind, stmt at 1, routine.
  destruct (exit_routine p) as [[[]|e] p1]; reflexivity.
Qed.

(** C4 (amended). Let the stop flag go up during an iteration of [run]
    in which no binding fails and the control routine returns, after
    [k] iterations that fell through to the loop head.  That iteration
    makes its four calls in order; at the next loop head [run] calls the
    exit routine, then, if that routine returns, [write_outputs], and
    ends: the exit routine is called once in the whole run, the
    emergency routine never, and no scan cycle starts after the call of
    the exit routine. *)
Theorem run_stop_requested (k n : nat) (p0 p p1 p2 p4 p5 p6 : PLC)
    (t0 t1 t4 t6 : list event) (r5 r6 : result unit) :
  normal_cycles k p0 = Some (p, t0) ->
  _exit p = false ->
  advance_and_input p = (Return tt, p1, t1) ->
  control_routine p1 = (Return tt, p2) ->
  stmt write_outputs (deliver_signals p2) = (Return tt, p4, t4) ->
  _exit p4 = true ->
  exit_routine p4 = (r5, p5) ->
  stmt write_outputs (deliver_signals p5) = (r6, p6, t6) ->
  let cycle := t1 ++ EvControlRoutine :: t4 in
  let flush := match r5 with Return _ => t6 | Raise _ => [] end in
  let t := t0 ++ cycle ++ EvExitRoutine :: flush in
  run (k + S (S n)) p0
  = Some (match r5 with
          | Return _ => (r6, p6, t)
          | Raise e => (Raise e, deliver_signals p5, t)
          end) /\
  (exists tr tw,
     cycle = EvUpdateRegistries :: EvReadInputs :: tr
             ++ EvControlRoutine :: EvWriteOutputs :: tw /\
     Forall (fun ev => leaf ev = true) tr /\ Forall (fun ev => leaf ev = true) tw) /\
  count is_exit_routine t = 1 /\
  count is_emergency_routine t = 0 /\
  count is_cycle_start (EvExitRoutine :: flush) = 0 /\
  (forall u, r5 = Return u -> count is_write_outputs flush = 1).
Proof.
  intros Hk Hx H1 H2 H4 Hx4 H5 H6 cycle flush t.
  destruct (advance_and_input_trace p) as (tr & Er & Hr). rewrite H1 in Er. simpl in Er.
  destruct (stmt_write_outputs_trace (deliver_signals p2)) as (tw & Ew & Hw).
  rewrite H4 in Ew. simpl in Ew.
  destruct (stmt_write_outputs_trace (deliver_signals p5)) as (tw6 & Ew6 & Hw6).
  rewrite H6 in Ew6. simpl in Ew6.
  destruct (normal_cycles_counts _ _ _ _ Hk) as (K1 & K2 & _).
  split; [|split].
  - rewrite (run_normal_cycles _ (S (S n)) _ _ _ Hk).
    change (run (S (S n)) p) with
      (if _exit p then Some (while_else p)
       else match scan_cycle p with
            | (Return Continue, q, u) =>
                match run (S n) q with
                | Some (r, q', u') => Some (r, q', u ++ u')
                | None => None
                end
            | (Return Returned, q, u) => Some (Return tt, q, u)
            | (Raise e, q, u) => Some (Raise e, q, u)
            end).
    rewrite Hx, (scan_cycle_normal _ _ _ _ _ _ _ H1 H2 H4).
    simpl run. rewrite Hx4, while_else_eq, H5.
    destruct r5 as [[]|e5]; [rewrite H6|]; subst t cycle flush;
      now rewrite <- !app_assoc.
  - exists tr, tw. subst cycle t1 t4. simpl. auto.
  - subst t cycle flush t1 t4 t6.
    destruct r5 as [[]|e5]; repeat split; try count_calls; intros; try discriminate;
      count_calls.
Qed.

(** *** The output phase *)

Lemma write_output_eq (g : binding) (p : PLC) :
  write_output g p
  = match od_get (label g) (output_registry p) with
    | None => (Raise (KeyError (label g)), p, [])
    | Some mv =>
        match gpio_write g (curr_state mv) (world p) with
        | (None, w) => (Return tt, set_world p w, [EvWrite (label g) (curr_state mv)])
        | (Some d, w) =>
            (Raise (InternalCommunicationError d), set_world p w,
             [EvWrite (label g) (curr_state mv)])
        end
    end.
Proof.
  unfold write_output, bind, getitem, write.
  destruct (od_get (label g) (output_registry p)) as [mv|]; auto.
  destruct (gpio_write g (curr_state mv) (world p)) as [[d|] w]; reflexivity.
Qed.

(** The loop of [write_outputs] writes the outputs in order and stops
    at the first write that fails. *)
Lemma write_loop (gs : list binding) (p : PLC) :
  (forall g, In g gs -> od_get (label g) (output_registry p) <> None) ->
  exists r p' t done rest,
    for_each gs write_output p = (r, p', t) /\
    output_registry p' = output_registry p /\
    eml_notification p' = eml_notification p /\
    gs = done ++ rest /\
    Forall2 (written p) done t /\
    ((r = Return tt /\ rest = []) \/ exists d, r = Raise (InternalCommunicationError d)).
Proof.
  revert p. induction gs as [|g gs IH]; intros p Hwf.
  - exists (Return tt), p, [], [], []. simpl. repeat split; auto.
  - simpl. unfold bind. rewrite write_output_eq.
    destruct (od_get (label g) (output_registry p)) as [mv|] eqn:Eg.
    2:{ exfalso. apply (Hwf g); simpl; auto. }
    destruct (gpio_write g (curr_state mv) (world p)) as [[d|] w].
    + exists (Raise (InternalCommunicationError d)), (set_world p w),
        [EvWrite (label g) (curr_state mv)], [g], gs.
      repeat split; eauto. repeat constructor. exists mv. auto.
    + destruct (IH (set_world p w)) as (r & p' & t & done & rest & E & Ho & Hn & Hgs & Hw & Hr).
      { intros g' Hin. apply Hwf. simpl. auto. }
      rewrite E. exists r, p', (EvWrite (label g) (curr_state mv) :: t), (g :: done), rest.
      repeat split; auto.
      * simpl. congruence.
      * constructor; auto. exists mv. auto.
Qed.

Lemma written_is_write (p : PLC) (gs : list binding) (t : list event) :
  Forall2 (written p) gs t -> filter is_write t = t.
Proof.
  induction 1 as [|g ev gs t (mv & _ & ->) _ IH]; simpl; auto. now rewrite IH.
Qed.

Lemma handler_writes_nothing (description : string) (p : PLC) :
  exists msg p' t, int_com_error_handler description p = (Raise (SystemExit msg), p', t) /\
                   filter is_write t = [].
Proof.
  destruct (int_com_error_handler_raises description p) as (p' & t & E & _ & Hw).
  eauto.
Qed.

(** [write_outputs]: the calls of [write] it makes are those for an
    initial stretch of the bound outputs, in their order, each with the
    current state of the output's registry entry; the stretch is all of
    them when [write_outputs] returns, and otherwise [write_outputs]
    ends in [SystemExit]. *)
Lemma write_outputs_writes (p : PLC) :
  (forall g, In g (od_values (_outputs p)) ->
     od_get (label g) (output_registry p) <> None) ->
  exists r p' t done rest,
    write_outputs p = (r, p', t) /\
    od_values (_outputs p) = done ++ rest /\
    Forall2 (written p) done (filter is_write t) /\
    ((r = Return tt /\ rest = []) \/ exists msg, r = Raise (SystemExit msg)).
Proof.
  intros Hwf.
  destruct (write_loop _ p Hwf) as (r & p' & t & done & rest & E & Ho & Hn & Hgs & Hw & Hr).
  unfold write_outputs, bind, emit, get, try_except. rewrite E.
  destruct Hr as [[-> ->]|[d ->]]; simpl.
  - exists (Return tt), p', (EvWriteOutputs :: t), done, []. simpl.
    rewrite (written_is_write _ _ _ Hw).
    split; [reflexivity|]. split; [exact Hgs|]. split; [exact Hw|]. left. auto.
  - destruct (handler_writes_nothing d p') as (msg & p'' & th & Eh & Hth). rewrite Eh.
    exists (Raise (SystemExit msg)), p'', (EvWriteOutputs :: t ++ th), done, rest. simpl.
    rewrite filter_app, Hth, app_nil_r, (written_is_write _ _ _ Hw).
    split; [reflexivity|]. split; [exact Hgs|]. split; [exact Hw|]. right. eauto.
Qed.

(** [after_writes reg gs w]: the world after the calls of [write] on
    the bindings [gs] in turn, each with the current state of its entry
    in [reg], from the world [w] on, when every one of these calls
    returns; [None] when one of them fails or has no entry. *)
Fixpoint after_writes (reg : odict MemoryVariable) (gs : list binding) (w : W)
    : option W :=
  match gs with
  | [] => Some w
  | g :: gs' =>
      match od_get (label g) reg with
      | Some mv =>
          match gpio_write g (curr_state mv) w with
          | (None, w') => after_writes reg gs' w'
          | (Some _, _) => None
          end
      | None => None
      end
  end.

(** When every write returns, the loop of [write_outputs] returns and
    has written every output. *)
Lemma write_loop_succeeds (gs : list binding) :
  forall (p : PLC) (w' : W),
    after_writes (output_registry p) gs (world p) = Some w' ->
    exists p' t,
      for_each gs write_output p = (Return tt, p', t) /\
      Forall2 (written p) gs t.
Proof.
  induction gs as [|g gs IH]; intros p w' H; simpl in H.
  - exists p, []. split; [reflexivity|constructor].
  - simpl. unfold bind. rewrite write_output_eq.
    destruct (od_get (label g) (output_registry p)) as [mv|] eqn:Eg; [|discriminate].
    destruct (gpio_write g (curr_state mv) (world p)) as [[d|] w]; [discriminate|].
    destruct (IH (set_world p w) w' H) as (p' & t & E & Hw).
    rewrite E. exists p', (EvWrite (label g) (curr_state mv) :: t).
    split; [reflexivity|]. constructor; [exists mv; auto|exact Hw].
Qed.

(** When the writes of [pre] return and the write of [g] then fails,
    the loop raises the error of [g] and has written [pre] and [g],
    nothing after [g]. *)
Lemma write_loop_fails (pre : list binding) (g : binding) (post : list binding) :
  forall (p : PLC) (w1 w2 : W) (mv : MemoryVariable) (d : string),
    after_writes (output_registry p) pre (world p) = Some w1 ->
    od_get (label g) (output_registry p) = Some mv ->
    gpio_write g (curr_state mv) w1 = (Some d, w2) ->
    exists p' t,
      for_each (pre ++ g :: post) write_output p
      = (Raise (InternalCommunicationError d), p', t) /\
      Forall2 (written p) (pre ++ [g]) t.
Proof.
  induction pre as [|a pre IH]; intros p w1 w2 mv d H Hg Hw; simpl in H.
  - injection H as <-. simpl. unfold bind. rewrite write_output_eq, Hg, Hw.
    eexists _, _. split; [reflexivity|]. repeat constructor. exists mv. auto.
  - simpl. unfold bind. rewrite write_output_eq.
    destruct (od_get (label a) (output_registry p)) as [mva|] eqn:Ea; [|discriminate].
    destruct (gpio_write a (curr_state mva) (world p)) as [[da|] w]; [discriminate|].
    destruct (IH (set_world p w) w1 w2 mv d H Hg Hw) as (p' & t & E & Hall).
    rewrite E. exists p', (EvWrite (label a) (curr_state mva) :: t).
    split; [reflexivity|]. constructor; [exists mva; auto|exact Hall].
Qed.

Lemma write_outputs_succeeds (p : PLC) (w' : W) :
  after_writes (output_registry p) (od_values (_outputs p)) (world p) = Some w' ->
  exists p' t,
    write_outputs p = (Return tt, p', t) /\
    Forall2 (written p) (od_values (_outputs p)) (filter is_write t).
Proof.
  intros H. destruct (write_loop_succeeds _ p w' H) as (p' & t & E & Hw).
  unfold write_outputs, bind, emit, get, try_except. rewrite E.
  exists p', (EvWriteOutputs :: t). split; [reflexivity|].
  simpl. now rewrite (written_is_write _ _ _ Hw).
Qed.

Lemma write_outputs_fails (p : PLC) (pre : list binding) (g : binding)
    (post : list binding) (w1 w2 : W) (mv : MemoryVariable) (d : string) :
  od_values (_outputs p) = pre ++ g :: post ->
  after_writes (output_registry p) pre (world p) = Some w1 ->
  od_get (label g) (output_registry p) = Some mv ->
  gpio_write g (curr_state mv) w1 = (Some d, w2) ->
  exists p' t,
    write_outputs p
    = (Raise (SystemExit ("program interrupted: " ++ d)%string), p', t) /\
    Forall2 (written p) (pre ++ [g]) (filter is_write t).
Proof.
  intros Hgs H Hg Hw.
  destruct (write_loop_fails pre g post p w1 w2 mv d H Hg Hw) as (p' & t & E & Hall).
  unfold write_outputs, bind, emit, get, try_except. rewrite Hgs, E. simpl.
  destruct (int_com_error_handler_raises d p') as (p'' & th & Eh & _ & Hth).
  rewrite Eh. exists p'', (EvWriteOutputs :: t ++ th). split; [reflexivity|].
  simpl. now rewrite filter_app, Hth, app_nil_r, (written_is_write _ _ _ Hall).
Qed.

(** C2 (amended). Let the input phase end in [SystemExit], that is, let
    a read fail, in some iteration of [run], after [k] iterations that
    fell through to the loop head.  Then the control routine is not
    called in that iteration, [write_outputs] is called once, and [run]
    ends in [SystemExit].  The calls of [write] are those for the bound
    outputs in their order, each with the current state of the output's
    registry entry, up to and including the first write that fails.
    When every write returns, [write_outputs] returns and every bound
    output has been written; when the writes of the outputs before [g]
    return and the write of [g] fails, [write_outputs] ends in
    [SystemExit] with the description of that failure, and the outputs
    after [g] are not written. *)
Theorem run_input_failure (k n : nat) (p0 p p1 p3 : PLC)
    (t0 t1 t3 : list event) (r3 : result unit) (msg : string) :
  normal_cycles k p0 = Some (p, t0) ->
  _exit p = false ->
  advance_and_input p = (Raise (SystemExit msg), p1, t1) ->
  (forall g, In g (od_values (_outputs p1)) ->
     od_get (label g) (output_registry p1) <> None) ->
  stmt write_outputs p1 = (r3, p3, t3) ->
  run (k + S n) p0
  = Some (match r3 with Raise e => Raise e | Return _ => Raise (SystemExit msg) end,
          p3, t0 ++ t1 ++ t3) /\
  (exists m, match r3 with Raise e => e | Return _ => SystemExit msg end = SystemExit m) /\
  count is_control_routine (t1 ++ t3) = 0 /\
  count is_write_outputs (t1 ++ t3) = 1 /\
  (exists done rest,
     od_values (_outputs p1) = done ++ rest /\
     Forall2 (written p1) done (filter is_write t3) /\
     (r3 = Return tt -> rest = [])) /\
  (forall w',
     after_writes (output_registry p1) (od_values (_outputs p1)) (world p1) = Some w' ->
     r3 = Return tt /\
     Forall2 (written p1) (od_values (_outputs p1)) (filter is_write t3)) /\
  (forall pre g post w1 w2 mv d,
     od_values (_outputs p1) = pre ++ g :: post ->
     after_writes (output_registry p1) pre (world p1) = Some w1 ->
     od_get (label g) (output_registry p1) = Some mv ->
     gpio_write g (curr_state mv) w1 = (Some d, w2) ->
     r3 = Raise (SystemExit ("program interrupted: " ++ d)%string) /\
     Forall2 (written p1) (pre ++ [g]) (filter is_write t3)).
Proof.
  intros Hk Hx H1 Hwf H3.
  destruct (advance_and_input_trace p) as (tr & Er & Hr). rewrite H1 in Er. simpl in Er.
  destruct (stmt_write_outputs_trace p1) as (tw & Ew & Hw).
  rewrite H3 in Ew. simpl in Ew.
  destruct (write_outputs_writes p1 Hwf) as (r & p' & t & done & rest & E & Hgs & Hwr & Hres).
  assert (r3 = r /\ t3 = t) as [-> ->].
  { unfold stmt in H3. rewrite E in H3. injection H3 as <- _ <-. auto. }
  split; [|split; [|split; [|split; [|split; [|split]]]]].
  - rewrite (run_normal_cycles _ (S n) _ _ _ Hk). simpl. rewrite Hx.
    rewrite (scan_cycle_input_raises _ _ _ _ _ _ _ H1 ltac:(discriminate) H3).
    now destruct r.
  - destruct Hres as [[-> _]|[m ->]]; eauto.
  - subst t1 t. count_calls.
  - subst t1 t. count_calls.
  - exists done, rest. repeat split; auto.
    intros ->. destruct Hres as [[_ ?]|[m ?]]; [auto|discriminate].
  - intros w' Ha. destruct (write_outputs_succeeds p1 w' Ha) as (q & tq & Eq & Hall).
    rewrite Eq in E. injection E as <- _ <-. auto.
  - intros pre g post w1 w2 mv d Hsplit Ha Hg Hgw.
    destruct (write_outputs_fails p1 pre g post w1 w2 mv d Hsplit Ha Hg Hgw)
      as (q & tq & Eq & Hall).
    rewrite Eq in E. injection E as <- _ <-. auto.
Qed.

(** *** The input phase *)

Lemma wf_bindings_nil : wf_bindings ([] : odict binding).
Proof. split; constructor. Qed.

Lemma wf_bindings_set (k : string) (g : binding) (d : odict binding) :
  label g = k -> wf_bindings d -> wf_bindings (od_set k g d).
Proof.
  intros Hl [Hnd Hf]. split.
  - now apply od_keys_set_NoDup.
  - now apply od_set_Forall.
Qed.

Lemma wf_bindings_labels (d : odict binding) :
  wf_bindings d -> map label (od_values d) = od_keys d.
Proof.
  intros [_ Hf]. unfold od_values, od_keys. rewrite map_map.
  induction Hf as [|kv d Hkv Hf IH]; simpl; congruence.
Qed.

Lemma od_values_set_In (k : string) (g : binding) (d : odict binding) :
  In g (od_values (od_set k g d)).
Proof.
  unfold od_values. change g with (snd (k, g)). apply in_map. apply od_set_In.
Qed.

Lemma read_input_entry : read_input = read_entry label.
Proof. reflexivity. Qed.

Lemma read_status_entry : read_status = read_entry status_key.
Proof. reflexivity. Qed.

Lemma read_entry_eq key (g : binding) (p : PLC) :
  read_entry key g p
  = match od_get (key g) (input_registry p) with
    | None => (Raise (KeyError (key g)), p, [])
    | Some mv =>
        match gpio_read g (world p) with
        | (inl v, w) =>
            (Return tt,
             set_input_registry (set_world p w)
               (od_set (key g) (update mv v) (input_registry p)),
             [EvRead (label g) (inl v)])
        | (inr d, w) =>
            (Raise (InternalCommunicationError d), set_world p w,
             [EvRead (label g) (inr d)])
        end
    end.
Proof.
  unfold read_entry, bind, getitem, read, modify.
  destruct (od_get (key g) (input_registry p)) as [mv|]; auto.
  destruct (gpio_read g (world p)) as [[v|d] w]; reflexivity.
Qed.

(** A loop of [read_inputs] touches the input registry and the world,
    and nothing else. *)
Lemma read_loop_frame key (gs : list binding) :
  forall (p p' : PLC) r t,
    for_each gs (read_entry key) p = (r, p', t) ->
    _inputs p' = _inputs p /\ _outputs p' = _outputs p /\
    output_registry p' = output_registry p.
Proof.
  induction gs as [|g gs IH]; intros p p' r t H; simpl in H.
  - injection H as _ <- _. auto.
  - unfold bind in H. rewrite read_entry_eq in H.
    destruct (od_get (key g) (input_registry p)) as [mv|];
      [|injection H as _ <- _; auto].
    destruct (gpio_read g (world p)) as [[v|d] w];
      [|injection H as _ <- _; auto].
    destruct (for_each gs (read_entry key) _) as [[r1 p1] t1] eqn:E.
    injection H as _ <- _. apply IH in E. simpl in E. exact E.
Qed.

(** It leaves alone the entries under keys that are not its own. *)
Lemma read_loop_other key (gs : list binding) (l : string) :
  forall (p p' : PLC) r t,
    for_each gs (read_entry key) p = (r, p', t) ->
    (forall g, In g gs -> key g <> l) ->
    od_get l (input_registry p') = od_get l (input_registry p).
Proof.
  induction gs as [|g gs IH]; intros p p' r t H Hne; simpl in H.
  - injection H as _ <- _. auto.
  - unfold bind in H. rewrite read_entry_eq in H.
    destruct (od_get (key g) (input_registry p)) as [mv|];
      [|injection H as _ <- _; auto].
    destruct (gpio_read g (world p)) as [[v|d] w];
      [|injection H as _ <- _; auto].
    destruct (for_each gs (read_entry key) _) as [[r1 p1] t1] eqn:E.
    injection H as _ <- _. apply IH in E; [|intros; apply Hne; simpl; auto].
    rewrite E. simpl. apply od_get_set_ne.
    intros Heq. apply (Hne g); [simpl; auto|now symmetry].
Qed.

(** [read_ok g ev]: [ev] is a call of [read] on [g] that returned. *)
Definition read_ok (g : binding) (ev : event) : Prop :=
  exists v, ev = EvRead (label g) (inl v).

(** [input_phase_reads p t t1 t2]: the trace [t] of the first two
    statements of a scan cycle of [p] is their two marks, then [t1],
    one read that returned for each bound input, in the order of the
    inputs, then [t2], one read-back that returned for each bound
    output, in the order of the outputs. *)
Definition input_phase_reads (p : PLC) (t t1 t2 : list event) : Prop :=
  t = EvUpdateRegistries :: EvReadInputs :: t1 ++ t2 /\
  Forall2 read_ok (od_values (_inputs p)) t1 /\
  Forall2 read_ok (od_values (_outputs p)) t2.

(** [reading t' l v]: the binding with the label [l] was read in [t'],
    and [v] is the one value its reads returned there. *)
Definition reading (t' : list event) (l : string) (v : value) : Prop :=
  In (EvRead l (inl v)) t' /\
  forall v', In (EvRead l (inl v')) t' -> v' = v.

(** A loop of [read_inputs] that returns has read each of its bindings
    once, in order. *)
Lemma read_loop_events key (gs : list binding) :
  forall (p p' : PLC) t,
    for_each gs (read_entry key) p = (Return tt, p', t) ->
    Forall2 read_ok gs t.
Proof.
  induction gs as [|a gs IH]; intros p p' t H; simpl in H.
  - injection H as _ <-. constructor.
  - unfold bind in H. rewrite read_entry_eq in H.
    destruct (od_get (key a) (input_registry p)) as [mv|]; [|discriminate].
    destruct (gpio_read a (world p)) as [[v|d] w]; [|discriminate].
    destruct (for_each gs (read_entry key) _) as [[r1 p1] t1] eqn:E.
    injection H as -> <- <-. constructor; [now exists v|].
    exact (IH _ _ _ E).
Qed.

Lemma read_events_label (gs : list binding) (t : list event) (l : string) x :
  Forall2 read_ok gs t -> In (EvRead l x) t -> In l (map label gs).
Proof.
  induction 1 as [|g ev gs t [v ->] _ IH]; intros Hin; [destruct Hin|].
  destruct Hin as [E|Hin].
  - injection E as <- _. simpl. auto.
  - simpl. auto.
Qed.

(** With distinct labels, the reads of a loop give one value a label. *)
Lemma reading_unique (gs : list binding) (t : list event) (l : string) (v v' : value) :
  Forall2 read_ok gs t ->
  NoDup (map label gs) ->
  In (EvRead l (inl v)) t -> In (EvRead l (inl v')) t -> v' = v.
Proof.
  induction 1 as [|g ev gs t [v0 ->] Hall IH]; intros Hnd H1 H2; [destruct H1|].
  inversion Hnd as [|k ks Hk Hnd']; subst.
  destruct H1 as [E1|H1], H2 as [E2|H2].
  - injection E1 as _ <-. injection E2 as _ <-. reflexivity.
  - injection E1 as <- _. exfalso. apply Hk. eapply read_events_label; eauto.
  - injection E2 as <- _. exfalso. apply Hk. eapply read_events_label; eauto.
  - auto.
Qed.

(** When it returns, every entry of its own has been updated once, with
    the value its binding read in this loop. *)
Lemma read_loop_hit key (gs : list binding) (g : binding) :
  forall (p p' : PLC) t,
    for_each gs (read_entry key) p = (Return tt, p', t) ->
    NoDup (map key gs) -> In g gs ->
    exists mv v,
      od_get (key g) (input_registry p) = Some mv /\
      In (EvRead (label g) (inl v)) t /\
      od_get (key g) (input_registry p') = Some (update mv v).
Proof.
  induction gs as [|a gs IH]; intros p p' t H Hnd Hin; [destruct Hin|].
  simpl in H. unfold bind in H. rewrite read_entry_eq in H.
  destruct (od_get (key a) (input_registry p)) as [mv|] eqn:Ea; [|discriminate].
  destruct (gpio_read a (world p)) as [[v|d] w] eqn:Er; [|discriminate].
  destruct (for_each gs (read_entry key) _) as [[r1 p1] t1] eqn:E.
  injection H as -> <- <-. inversion Hnd as [|k ks Hk Hnd']; subst.
  destruct Hin as [<-|Hin].
  - exists mv, v. split; [auto|]. split; [simpl; auto|].
    rewrite (read_loop_other _ _ (key a) _ _ _ _ E).
    + simpl. apply od_get_set_eq.
    + intros g Hg Heq. apply Hk. rewrite <- Heq. now apply in_map.
  - destruct (IH _ _ _ E Hnd' Hin) as (mv' & v' & Hget & Hev & Hres).
    simpl in Hget. rewrite od_get_set_ne in Hget.
    + exists mv', v'. split; [auto|]. split; [simpl; auto|auto].
    + intros Heq. apply Hk. rewrite <- Heq. now apply in_map.
Qed.

(** [read_inputs] returns only when both of its loops returned. *)
Lemma read_inputs_Return (p p' : PLC) t :
  read_inputs p = (Return tt, p', t) ->
  exists p1 t1 t2,
    for_each (od_values (_inputs p)) (read_entry label) p = (Return tt, p1, t1) /\
    for_each (od_values (_outputs p1)) (read_entry status_key) p1 = (Return tt, p', t2) /\
    t = EvReadInputs :: t1 ++ t2.
Proof.
  unfold read_inputs, bind at 1, emit, try_except, bind, get.
  rewrite read_input_entry, read_status_entry.
  destruct (for_each (od_values (_inputs p)) (read_entry label) p)
    as [[[[]|e] p1] t1] eqn:E1.
  - destruct (for_each (od_values (_outputs p1)) (read_entry status_key) p1)
      as [[[[]|e] p2] t2] eqn:E2.
    + intros H. injection H as <- <-. exists p1, t1, t2. auto.
    + destruct e; simpl; try discriminate.
      destruct (handler_writes_nothing description p2) as (msg & q & th & -> & _).
      discriminate.
  - destruct e; simpl; try discriminate.
    destruct (handler_writes_nothing description p1) as (msg & q & th & -> & _).
    discriminate.
Qed.

Lemma deliver_signals_frame (p : PLC) :
  _inputs (deliver_signals p) = _inputs p /\
  _outputs (deliver_signals p) = _outputs p /\
  input_registry (deliver_signals p) = input_registry p /\
  output_registry (deliver_signals p) = output_registry p.
Proof. unfold deliver_signals. destruct (sigtstp (world p)); simpl; auto. Qed.

(** The first two statements of a scan cycle, when they return. *)
Lemma advance_and_input_Return (p p2 : PLC) t :
  advance_and_input p = (Return tt, p2, t) ->
  exists q p1 q2 t1 t2,
    _inputs q = _inputs p /\ _outputs q = _outputs p /\
    input_registry q = input_registry p /\
    output_registry q = od_map restamp (output_registry p) /\
    for_each (od_values (_inputs q)) (read_entry label) q = (Return tt, p1, t1) /\
    for_each (od_values (_outputs p1)) (read_entry status_key) p1 = (Return tt, q2, t2) /\
    input_registry p2 = input_registry q2 /\
    output_registry p2 = output_registry q2 /\
    input_phase_reads p t t1 t2.
Proof.
  rewrite advance_and_input_eq. unfold stmt.
  destruct (read_inputs (deliver_signals (advance p))) as [[r q2] t'] eqn:E.
  intros H. injection H as -> <- <-.
  destruct (read_inputs_Return _ _ _ E) as (p1 & t1 & t2 & E1 & E2 & ->).
  destruct (deliver_signals_frame (advance p)) as (Fi & Fo & Fr & Fw).
  destruct (deliver_signals_frame q2) as (_ & _ & Gr & Gw).
  destruct (advance_registries p) as (_ & Ao & Ai).
  destruct (read_loop_frame _ _ _ _ _ _ E1) as (_ & F1o & _).
  exists (deliver_signals (advance p)), p1, q2, t1, t2.
  assert (_inputs (deliver_signals (advance p)) = _inputs p) as Qi
    by (rewrite Fi; unfold advance; now rewrite update_registries_eq).
  assert (_outputs p1 = _outputs p) as Qo
    by (rewrite F1o, Fo; unfold advance; now rewrite update_registries_eq).
  repeat split; auto; try congruence.
  - rewrite <- Qi. exact (read_loop_events _ _ _ _ _ E1).
  - rewrite <- Qo. exact (read_loop_events _ _ _ _ _ E2).
Qed.

(** The entry of a bound input after the input phase of a scan cycle:
    it was updated once, in the first loop, with the value read there. *)
Lemma input_phase_input (p p2 : PLC) t (g : binding) :
  wf_bindings (_inputs p) ->
  In g (od_values (_inputs p)) ->
  (forall g', In g' (od_values (_outputs p)) -> status_key g' <> label g) ->
  advance_and_input p = (Return tt, p2, t) ->
  exists mv v t1 t2,
    input_phase_reads p t t1 t2 /\
    reading t1 (label g) v /\
    od_get (label g) (input_registry p) = Some mv /\
    od_get (label g) (input_registry p2) = Some (update mv v).
Proof.
  intros Hwf Hin Hclash H.
  destruct (advance_and_input_Return _ _ _ H)
    as (q & p1 & q2 & t1 & t2 & Qi & Qo & Qr & _ & E1 & E2 & Hr & _ & Ht).
  destruct (read_loop_frame _ _ _ _ _ _ E1) as (_ & F1o & _).
  assert (NoDup (map label (od_values (_inputs p)))) as Hnd.
  { rewrite wf_bindings_labels by exact Hwf. apply Hwf. }
  rewrite <- Qi in Hin.
  destruct (read_loop_hit _ _ g _ _ _ E1 ltac:(now rewrite Qi) Hin)
    as (mv & v & Hget & Hev & Hres).
  exists mv, v, t1, t2. rewrite <- Qr. split; [exact Ht|]. split; [|split; [exact Hget|]].
  - split; [exact Hev|]. intros v' Hv'.
    exact (reading_unique _ _ _ _ _ (proj1 (proj2 Ht)) Hnd Hev Hv').
  - rewrite Hr, (read_loop_other _ _ (label g) _ _ _ _ E2); auto.
    intros g' Hg'. apply Hclash. now rewrite <- Qo, <- F1o.
Qed.

(** The status entry of a bound output after the input phase: it was
    updated once, in the second loop, with the value read back there. *)
Lemma input_phase_status (p p2 : PLC) t (g : binding) :
  wf_bindings (_outputs p) ->
  In g (od_values (_outputs p)) ->
  (forall g', In g' (od_values (_inputs p)) -> label g' <> status_key g) ->
  advance_and_input p = (Return tt, p2, t) ->
  (exists mv v t1 t2,
     input_phase_reads p t t1 t2 /\
     reading t2 (label g) v /\
     od_get (status_key g) (input_registry p) = Some mv /\
     od_get (status_key g) (input_registry p2) = Some (update mv v)) /\
  output_registry p2 = od_map restamp (output_registry p).
Proof.
  intros Hwf Hin Hclash H.
  destruct (advance_and_input_Return _ _ _ H)
    as (q & p1 & q2 & t1 & t2 & Qi & Qo & Qr & Qw & E1 & E2 & Hr & Hw & Ht).
  destruct (read_loop_frame _ _ _ _ _ _ E1) as (_ & F1o & F1w).
  destruct (read_loop_frame _ _ _ _ _ _ E2) as (_ & _ & F2w).
  split; [|congruence].
  assert (NoDup (map label (od_values (_outputs p)))) as Hndl.
  { rewrite wf_bindings_labels by exact Hwf. apply Hwf. }
  assert (NoDup (map status_key (od_values (_outputs p1)))) as Hnd.
  { rewrite F1o, Qo. unfold status_key.
    rewrite <- (map_map label (fun l => (l ++ "_status")%string)).
    now apply NoDup_map_injective; [intros a b; apply append_inj_l|]. }
  rewrite <- Qo, <- F1o in Hin.
  destruct (read_loop_hit _ _ g _ _ _ E2 Hnd Hin) as (mv & v & Hget & Hev & Hres).
  exists mv, v, t1, t2. rewrite Hr. split; [exact Ht|]. split; [|split; [|exact Hres]].
  - split; [exact Hev|]. intros v' Hv'.
    exact (reading_unique _ _ _ _ _ (proj2 (proj2 Ht)) Hndl Hev Hv').
  - rewrite <- Qr, <- Hget. symmetry.
    apply (read_loop_other _ _ (status_key g) _ _ _ _ E1).
    intros g' Hg'. apply Hclash. now rewrite <- Qi.
Qed.

(** ** More of the engine *)

(** *** The accessors *)

(** [di_read].  [self._inputs.get(label)] is a binding or [None]; a
    binding is taken to be truthy, as an object is that defines neither
    [__bool__] nor [__len__]. *)
Definition di_read (l : string) : M value :=
  fun p =>
    match od_get l (_inputs p) with
    | Some di => read di p
    | None =>
        (Raise (ConfigurationError ("unknown digital input `" ++ l ++ "`")%string), p, [])
    end.

(** [do_write]. *)
Definition do_write (l : string) (v : value) : M unit :=
  fun p =>
    match od_get l (_outputs p) with
    | Some do => write do v p
    | None =>
        (Raise (ConfigurationError ("unknown digital output `" ++ l ++ "`")%string), p, [])
    end.

(** [pwm_write]. *)
Definition pwm_write (l : string) (v : value) : M unit :=
  fun p =>
    match od_get l (_outputs p) with
    | Some pwm_output => write pwm_output v p
    | None =>
        (Raise (ConfigurationError ("unknown PWM output `" ++ l ++ "`")%string), p, [])
    end.

(** *** Configurations *)

(** One call of an [add_] method. *)
Inductive registration : Type :=
| RegDigitalInput (pin : pin_id) (l : string) (NC_contact : option bool)
| RegDigitalOutput (pin : pin_id) (l : string) (init_value : value)
| RegPWMOutput (pin : pin_id) (l : string)
    (init_value frame_width min_pulse_width max_pulse_width min_value max_value : value)
    (precision : Z)
| RegStep (l : string) (init_value : value).

Definition register (r : registration) (p : PLC) : PLC :=
  match r with
  | RegDigitalInput pin l nc => snd (add_digital_input pin l nc p)
  | RegDigitalOutput pin l v => snd (add_digital_output pin l v p)
  | RegPWMOutput pin l v fw minpw maxpw minv maxv dp =>
      snd (add_pwm_output pin l v fw minpw maxpw minv maxv dp p)
  | RegStep l v => snd (add_step l v p)
  end.

(** A PLC after [__init__] and a sequence of calls of [add_] methods. *)
Definition configure (rs : list registration) (p : PLC) : PLC :=
  fold_left (fun q r => register r q) rs p.

(** Every binding has the registry entries the scan phases look up:
    an input its entry in the input registry, an output its entry in
    the output registry and its status entry in the input registry. *)
Definition registered (p : PLC) : Prop :=
  wf_bindings (_inputs p) /\
  wf_bindings (_outputs p) /\
  (forall g, In g (od_values (_inputs p)) ->
     od_get (label g) (input_registry p) <> None) /\
  (forall g, In g (od_values (_outputs p)) ->
     od_get (label g) (output_registry p) <> None /\
     od_get (status_key g) (input_registry p) <> None).

(** [p'] differs from [p] in the input registry and the world at most. *)
Definition same_but_inputs (p p' : PLC) : Prop :=
  pin_factory p' = pin_factory p /\
  eml_notification p' = eml_notification p /\
  _inputs p' = _inputs p /\
  _outputs p' = _outputs p /\
  output_registry p' = output_registry p /\
  step_registry p' = step_registry p /\
  _exit p' = _exit p.

Lemma same_but_inputs_refl (p : PLC) : same_but_inputs p p.
Proof. repeat split. Qed.

Lemma same_but_inputs_trans (p q r : PLC) :
  same_but_inputs p q -> same_but_inputs q r -> same_but_inputs p r.
Proof. unfold same_but_inputs. intuition congruence. Qed.

Lemma od_get_set_kept {V : Type} (k k' : string) (v : V) (d : odict V) :
  od_get k d <> None -> od_get k (od_set k' v d) <> None.
Proof.
  intros H. destruct (String.eqb_spec k k') as [->|Hne].
  - rewrite od_get_set_eq. discriminate.
  - now rewrite od_get_set_ne.
Qed.

Lemma od_values_set_inv (k : string) (g : binding) (d : odict binding) (g' : binding) :
  In g' (od_values (od_set k g d)) -> g' = g \/ In g' (od_values d).
Proof.
  unfold od_values. intros H. apply in_map_iff in H as ([k0 g0] & <- & Hin).
  apply od_set_In_inv in Hin as [E|Hin].
  - injection E as _ ->. auto.
  - right. now apply (in_map snd) in Hin.
Qed.

Lemma registered_init pf eml (w : W) : registered (AbstractPLC_init pf eml w).
Proof.
  split; [apply wf_bindings_nil|]. split; [apply wf_bindings_nil|].
  split; intros g [].
Qed.

Lemma registered_register (r : registration) (p : PLC) :
  registered p -> registered (register r p).
Proof.
  intros (Hi & Ho & Hri & Hro).
  destruct r as [pin l nc|pin l v|pin l v fw minpw maxpw minv maxv dp|l v]; simpl.
  - unfold add_digital_input. destruct (truthy_flag nc); simpl;
      (split; [now apply wf_bindings_set|]); (split; [exact Ho|]); split.
    + intros g Hg. apply od_values_set_inv in Hg as [->|Hg]; simpl.
      * rewrite od_get_set_eq. discriminate.
      * now apply od_get_set_kept, Hri.
    + intros g Hg. destruct (Hro g Hg). split; auto. now apply od_get_set_kept.
    + intros g Hg. apply od_values_set_inv in Hg as [->|Hg]; simpl.
      * rewrite od_get_set_eq. discriminate.
      * now apply od_get_set_kept, Hri.
    + intros g Hg. destruct (Hro g Hg). split; auto. now apply od_get_set_kept.
  - split; [exact Hi|]. split; [now apply wf_bindings_set|]. split.
    + intros g Hg. now apply od_get_set_kept, Hri.
    + intros g Hg. apply od_values_set_inv in Hg as [->|Hg]; simpl.
      * unfold status_key. simpl. rewrite !od_get_set_eq. split; discriminate.
      * destruct (Hro g Hg). split; now apply od_get_set_kept.
  - split; [exact Hi|]. split; [now apply wf_bindings_set|]. split.
    + intros g Hg. now apply od_get_set_kept, Hri.
    + intros g Hg. apply od_values_set_inv in Hg as [->|Hg]; simpl.
      * unfold status_key. simpl. rewrite !od_get_set_eq. split; discriminate.
      * destruct (Hro g Hg). split; now apply od_get_set_kept.
  - split; [exact Hi|]. split; [exact Ho|]. split; [exact Hri|exact Hro].
Qed.

(** X3. Whatever [add_] methods are called after [__init__], in
    whatever order and with whatever labels, the bindings end up well
    formed and every binding has the registry entries the scan phases
    look up. *)
Theorem configure_registered (rs : list registration)
    (pf : option PiFactory) (eml : option EmailNotification) (w : W) :
  registered (configure rs (AbstractPLC_init pf eml w)).
Proof.
  unfold configure.
  assert (forall p, registered p -> registered (fold_left (fun q r => register r q) rs p))
    as H.
  { induction rs as [|r rs IH]; intros p Hp; simpl; auto.
    apply IH. now apply registered_register. }
  apply H, registered_init.
Qed.

(** *** The two I/O phases on their own *)

Lemma int_com_error_handler_frame (description : string) (p : PLC) :
  exists p' t,
    int_com_error_handler description p
    = (Raise (SystemExit ("program interrupted: " ++ description)%string), p', t) /\
    same_but_inputs p p' /\
    input_registry p' = input_registry p /\
    In (EvLogError ("program interrupted: " ++ description)%string) t /\
    In (EvSysExit ("program interrupted: " ++ description)%string) t.
Proof.
  unfold int_com_error_handler, bind, emit, get, sys_exit, raise, send, ret.
  destruct (eml_notification p) as [n|] eqn:En; simpl.
  - destruct (eml_send n _ (world p)) as [sent w]. simpl.
    eexists _, _. split; [reflexivity|]. simpl. repeat split; auto.
  - eexists _, _. split; [reflexivity|]. simpl. repeat split; auto.
Qed.

(** A loop of [read_inputs], whichever way it ends. *)
Lemma read_loop_same key (gs : list binding) :
  forall (p p' : PLC) r t,
    for_each gs (read_entry key) p = (r, p', t) ->
    same_but_inputs p p' /\
    (forall k, od_get k (input_registry p) <> None ->
               od_get k (input_registry p') <> None) /\
    (r = Return tt -> Forall2 read_ok gs t).
Proof.
  induction gs as [|g gs IH]; intros p p' r t H; simpl in H.
  - injection H as <- <- <-. split; [apply same_but_inputs_refl|].
    split; [auto|intros _; constructor].
  - unfold bind in H. rewrite read_entry_eq in H.
    destruct (od_get (key g) (input_registry p)) as [mv|].
    2:{ injection H as <- <- <-. split; [apply same_but_inputs_refl|].
        split; [auto|discriminate]. }
    destruct (gpio_read g (world p)) as [[v|d] w].
    2:{ injection H as <- <- <-. split; [repeat split|]. split; [auto|discriminate]. }
    destruct (for_each gs (read_entry key) _) as [[r1 p1] t1] eqn:E.
    injection H as <- <- <-. apply IH in E as (Hs & Hk & Ht).
    split; [|split].
    + eapply same_but_inputs_trans; [|exact Hs]. repeat split.
    + intros k Hkk. apply Hk. simpl. now apply od_get_set_kept.
    + intros ->. constructor; auto. now exists v.
Qed.

(** When it raises, it raises the [KeyError] of a missing entry or the
    communication error of the read it made last. *)
Lemma read_loop_raises key (gs : list binding) :
  forall (p p' : PLC) e t,
    for_each gs (read_entry key) p = (Raise e, p', t) ->
    (exists g, In g gs /\ e = KeyError (key g) /\
               od_get (key g) (input_registry p') = None) \/
    (exists g d, In g gs /\ e = InternalCommunicationError d /\
                 In (EvRead (label g) (inr d)) t).
Proof.
  induction gs as [|g gs IH]; intros p p' e t H; simpl in H; [discriminate|].
  unfold bind in H. rewrite read_entry_eq in H.
  destruct (od_get (key g) (input_registry p)) as [mv|] eqn:Eg.
  2:{ injection H as <- <- <-. left. exists g. simpl. auto. }
  destruct (gpio_read g (world p)) as [[v|d] w].
  2:{ injection H as <- <- <-. right. exists g, d. simpl. auto. }
  destruct (for_each gs (read_entry key) _) as [[r1 p1] t1] eqn:E.
  injection H as -> <- <-.
  apply IH in E as [(g' & Hin & He & Hn)|(g' & d & Hin & He & Ht)].
  - left. exists g'. simpl. auto.
  - right. exists g', d. simpl. auto.
Qed.

(** X4. Whichever way [read_inputs] ends, it changes the input registry
    and the world only: the bindings, the output and step registries,
    the stop flag and the notifier are as before, and no entry of the
    input registry is removed. *)
Theorem read_inputs_frame (p p' : PLC) (r : result unit) (t : list event) :
  read_inputs p = (r, p', t) ->
  same_but_inputs p p' /\
  forall k, od_get k (input_registry p) <> None -> od_get k (input_registry p') <> None.
Proof.
  unfold read_inputs, bind at 1, emit, try_except, bind, get.
  rewrite read_input_entry, read_status_entry.
  destruct (for_each (od_values (_inputs p)) (read_entry label) p)
    as [[r1 p1] t1] eqn:E1.
  destruct (read_loop_same _ _ _ _ _ _ E1) as (S1 & K1 & _).
  destruct r1 as [[]|e].
  - destruct (for_each (od_values (_outputs p1)) (read_entry status_key) p1)
      as [[r2 p2] t2] eqn:E2.
    destruct (read_loop_same _ _ _ _ _ _ E2) as (S2 & K2 & _).
    destruct r2 as [[]|e].
    + intros H. injection H as _ <- _. split; [eapply same_but_inputs_trans; eauto|auto].
    + destruct e; simpl; intros H; try (injection H as _ <- _;
        split; [eapply same_but_inputs_trans; eauto|auto]).
      destruct (int_com_error_handler_frame description p2) as (q & th & Eh & Sh & Rh & _).
      rewrite Eh in H. injection H as _ <- _.
      split; [eauto using same_but_inputs_trans|]. intros k Hk. rewrite Rh. auto.
  - destruct e; simpl; intros H; try (injection H as _ <- _; auto).
    destruct (int_com_error_handler_frame description p1) as (q & th & Eh & Sh & Rh & _).
    rewrite Eh in H. injection H as _ <- _.
    split; [eauto using same_but_inputs_trans|]. intros k Hk. rewrite Rh. auto.
Qed.

Lemma registered_same_but_inputs (p p' : PLC) :
  registered p -> same_but_inputs p p' ->
  (forall k, od_get k (input_registry p) <> None -> od_get k (input_registry p') <> None) ->
  registered p'.
Proof.
  intros (Hi & Ho & Hri & Hro) (_ & _ & Ei & Eo & Er & _ & _) Hk.
  unfold registered. rewrite Ei, Eo, Er. repeat split; auto; try apply Hi; try apply Ho.
  - apply Hro; auto.
  - apply Hk, Hro; auto.
Qed.

(** X5. On a PLC whose bindings all have their registry entries,
    [read_inputs] never raises [KeyError] nor lets a communication
    error through: it returns, or it ends in [SystemExit] with the
    message "program interrupted: " followed by the description of the
    read that failed, after logging that message; and the bindings
    still have their entries afterwards. *)
Theorem read_inputs_registered (p : PLC) :
  registered p ->
  exists r p' t,
    read_inputs p = (r, p', t) /\
    registered p' /\
    (r = Return tt \/
     exists d l,
       r = Raise (SystemExit ("program interrupted: " ++ d)%string) /\
       In (EvRead l (inr d)) t /\
       In (EvLogError ("program interrupted: " ++ d)%string) t /\
       In (EvSysExit ("program interrupted: " ++ d)%string) t).
Proof.
  intros Hreg. destruct (read_inputs p) as [[r p'] t] eqn:E. exists r, p', t.
  split; [reflexivity|].
  destruct (read_inputs_frame _ _ _ _ E) as (Hs & Hk).
  split; [now apply (registered_same_but_inputs p)|].
  destruct Hreg as (Hi & Ho & Hri & Hro).
  revert E. unfold read_inputs, bind at 1, emit, try_except, bind, get.
  rewrite read_input_entry, read_status_entry.
  destruct (for_each (od_values (_inputs p)) (read_entry label) p)
    as [[r1 p1] t1] eqn:E1.
  destruct (read_loop_same _ _ _ _ _ _ E1) as ((_ & _ & _ & So & _) & K1 & _).
  destruct r1 as [[]|e].
  - destruct (for_each (od_values (_outputs p1)) (read_entry status_key) p1)
      as [[r2 p2] t2] eqn:E2.
    destruct r2 as [[]|e]; [intros H; injection H as <- _ _; auto|].
    destruct (read_loop_raises _ _ _ _ _ _ E2)
      as [(g & Hin & -> & Hn)|(g & d & Hin & -> & Ht)]; simpl.
    + exfalso. destruct (read_loop_same _ _ _ _ _ _ E2) as (_ & K2 & _).
      rewrite So in Hin. apply (K2 (status_key g)); auto. apply K1, Hro, Hin.
    + destruct (int_com_error_handler_frame d p2) as (q & th & -> & _ & _ & Hl & Hx).
      intros H. injection H as <- _ <-. right. exists d, (label g).
      split; [reflexivity|]. simpl. rewrite !in_app_iff. auto 6.
  - destruct (read_loop_raises _ _ _ _ _ _ E1)
      as [(g & Hin & -> & Hn)|(g & d & Hin & -> & Ht)]; simpl.
    + exfalso. destruct (read_loop_same _ _ _ _ _ _ E1) as (_ & K1' & _).
      apply (K1' (label g)); auto.
    + destruct (int_com_error_handler_frame d p1) as (q & th & -> & _ & _ & Hl & Hx).
      intros H. injection H as <- _ <-. right. exists d, (label g).
      split; [reflexivity|]. simpl. rewrite !in_app_iff. auto 6.
Qed.

(** X6. When [read_inputs] returns, it has read every bound input once,
    in the order the inputs were first registered, and then every bound
    output once, in the order of the outputs; it has made no other
    call. *)
Theorem read_inputs_order (p p' : PLC) (t : list event) :
  read_inputs p = (Return tt, p', t) ->
  exists t1 t2,
    t = EvReadInputs :: t1 ++ t2 /\
    Forall2 read_ok (od_values (_inputs p)) t1 /\
    Forall2 read_ok (od_values (_outputs p)) t2.
Proof.
  unfold read_inputs, bind at 1, emit, try_except, bind, get.
  rewrite read_input_entry, read_status_entry.
  destruct (for_each (od_values (_inputs p)) (read_entry label) p)
    as [[r1 p1] t1] eqn:E1.
  destruct (read_loop_same _ _ _ _ _ _ E1) as ((_ & _ & _ & So & _) & _ & T1).
  destruct r1 as [[]|e].
  - destruct (for_each (od_values (_outputs p1)) (read_entry status_key) p1)
      as [[r2 p2] t2] eqn:E2.
    destruct (read_loop_same _ _ _ _ _ _ E2) as (_ & _ & T2).
    destruct r2 as [[]|e].
    + intros H. injection H as _ <-. exists t1, t2. rewrite <- So. auto.
    + destruct e; simpl; try discriminate.
      destruct (int_com_error_handler_frame description p2) as (q & th & -> & _).
      discriminate.
  - destruct e; simpl; try discriminate.
    destruct (int_com_error_handler_frame description p1) as (q & th & -> & _).
    discriminate.
Qed.

(** [p'] differs from [p] in the world at most. *)
Definition same_but_world (p p' : PLC) : Prop :=
  same_but_inputs p p' /\ input_registry p' = input_registry p.

Lemma write_loop_frame (gs : list binding) :
  forall (p p' : PLC) r t,
    for_each gs write_output p = (r, p', t) -> same_but_world p p'.
Proof.
  induction gs as [|g gs IH]; intros p p' r t H; simpl in H.
  - injection H as _ <- _. repeat split.
  - unfold bind in H. rewrite write_output_eq in H.
    destruct (od_get (label g) (output_registry p)) as [mv|];
      [|injection H as _ <- _; repeat split].
    destruct (gpio_write g (curr_state mv) (world p)) as [[d|] w];
      [injection H as _ <- _; repeat split|].
    destruct (for_each gs write_output _) as [[r1 p1] t1] eqn:E.
    injection H as _ <- _. apply IH in E. exact E.
Qed.

(** X7. Whichever way [write_outputs] ends, it changes nothing but the
    world: every registry, the bindings, the stop flag and the notifier
    are as before.  On a PLC whose bindings all have their registry
    entries it returns or ends in [SystemExit], never in [KeyError] or
    in a communication error. *)
Theorem write_outputs_frame (p p' : PLC) (r : result unit) (t : list event) :
  write_outputs p = (r, p', t) ->
  same_but_world p p' /\
  (registered p -> registered p' /\ (r = Return tt \/ exists msg, r = Raise (SystemExit msg))).
Proof.
  intros H.
  assert (same_but_world p p') as Hs.
  { revert H. unfold write_outputs, bind at 1, emit, try_except, bind, get.
    destruct (for_each (od_values (_outputs p)) write_output p) as [[r1 p1] t1] eqn:E1.
    apply write_loop_frame in E1 as [S1 R1].
    destruct r1 as [[]|e]; [intros H; injection H as _ <- _; now split|].
    destruct e; simpl; intros H; try (injection H as _ <- _; now split).
    destruct (int_com_error_handler_frame description p1) as (q & th & Eh & Sh & Rh & _).
    rewrite Eh in H. injection H as _ <- _.
    split; [eauto using same_but_inputs_trans|congruence]. }
  split; [exact Hs|]. intros Hreg. split.
  - destruct Hs as [Hs Hr]. apply (registered_same_but_inputs p); auto.
    intros k. now rewrite Hr.
  - destruct (write_outputs_writes p) as (r' & q & t' & done & rest & E & _ & _ & Hres).
    { intros g Hg. now apply Hreg. }
    rewrite H in E. injection E as <- _ _.
    destruct Hres as [[-> _]|[msg ->]]; eauto.
Qed.

(** *** The accessors *)

(** X8. [di_read] on a label that is not bound as an input raises
    [ConfigurationError] without touching the hardware; on a bound
    label it calls [read] on that binding once and returns what it
    read, or lets the communication error through to its caller: there
    is no logging, no notification and no [sys.exit] on this path, and
    the registries are never changed. *)
Theorem di_read_behaviour (l : string) (p p' : PLC) (r : result value) (t : list event) :
  di_read l p = (r, p', t) ->
  same_but_world p p' /\
  match od_get l (_inputs p) with
  | None =>
      r = Raise (ConfigurationError ("unknown digital input `" ++ l ++ "`")%string) /\
      p' = p /\ t = []
  | Some di =>
      (exists v, r = Return v /\ t = [EvRead (label di) (inl v)] /\
                 fst (gpio_read di (world p)) = inl v) \/
      (exists d, r = Raise (InternalCommunicationError d) /\
                 t = [EvRead (label di) (inr d)] /\
                 fst (gpio_read di (world p)) = inr d)
  end.
Proof.
  unfold di_read, read. destruct (od_get l (_inputs p)) as [di|].
  - destruct (gpio_read di (world p)) as [[v|d] w]; intros H; injection H as <- <- <-;
      (split; [repeat split|]); simpl; eauto.
  - intros H; injection H as <- <- <-. repeat split.
Qed.

(** X9. [do_write] and [pwm_write] look the label up among the bound
    outputs only; on an unknown label they raise [ConfigurationError]
    without touching the hardware, on a bound one they call [write] on
    the binding once with the given value and return, or let the
    communication error through.  Neither checks the kind of the
    output, so on a bound label the two do the same; and neither stores
    the value in the output registry, which is as before. *)
Theorem do_write_behaviour (l : string) (v : value) (p p' : PLC)
    (r : result unit) (t : list event) :
  do_write l v p = (r, p', t) ->
  same_but_world p p' /\
  match od_get l (_outputs p) with
  | None =>
      r = Raise (ConfigurationError ("unknown digital output `" ++ l ++ "`")%string) /\
      p' = p /\ t = [] /\
      pwm_write l v p
      = (Raise (ConfigurationError ("unknown PWM output `" ++ l ++ "`")%string), p, [])
  | Some g =>
      t = [EvWrite (label g) v] /\
      pwm_write l v p = (r, p', t) /\
      ((r = Return tt /\ fst (gpio_write g v (world p)) = None) \/
       (exists d, r = Raise (InternalCommunicationError d) /\
                  fst (gpio_write g v (world p)) = Some d))
  end.
Proof.
  unfold do_write, pwm_write, write. destruct (od_get l (_outputs p)) as [g|].
  - destruct (gpio_write g v (world p)) as [[d|] w]; intros H; injection H as <- <- <-;
      (split; [repeat split|]); simpl; eauto 6.
  - intros H; injection H as <- <- <-. repeat split.
Qed.

(** *** More about [run] *)

Lemma read_inputs_raises (p p' : PLC) e t :
  read_inputs p = (Raise e, p', t) ->
  (exists k, e = KeyError k) \/ (exists msg, e = SystemExit msg).
Proof.
  unfold read_inputs, bind at 1, emit, try_except, bind, get.
  rewrite read_input_entry, read_status_entry.
  destruct (for_each (od_values (_inputs p)) (read_entry label) p)
    as [[r1 p1] t1] eqn:E1.
  destruct r1 as [[]|e1].
  - destruct (for_each (od_values (_outputs p1)) (read_entry status_key) p1)
      as [[r2 p2] t2] eqn:E2.
    destruct r2 as [[]|e2]; [discriminate|].
    destruct (read_loop_raises _ _ _ _ _ _ E2)
      as [(g & _ & -> & _)|(g & d & _ & -> & _)]; simpl.
    + intros H; injection H as <- _ _. eauto.
    + destruct (int_com_error_handler_frame d p2) as (q & th & -> & _).
      intros H; injection H as <- _ _. eauto.
  - destruct (read_loop_raises _ _ _ _ _ _ E1)
      as [(g & _ & -> & _)|(g & d & _ & -> & _)]; simpl.
    + intros H; injection H as <- _ _. eauto.
    + destruct (int_com_error_handler_frame d p1) as (q & th & -> & _).
      intros H; injection H as <- _ _. eauto.
Qed.

Lemma advance_and_input_raises (p p1 : PLC) e t1 :
  advance_and_input p = (Raise e, p1, t1) -> e <> EmergencyException.
Proof.
  rewrite advance_and_input_eq. unfold stmt.
  destruct (read_inputs (deliver_signals (advance p))) as [[r q] t] eqn:E.
  intros H. injection H as -> _ _.
  apply read_inputs_raises in E as [[k ->]|[msg ->]]; discriminate.
Qed.

(** The iteration in which the control routine raises something else
    than the emergency. *)
Lemma scan_cycle_control_raises (p p1 p2 p4 : PLC) t1 t4 r4 e :
  advance_and_input p = (Return tt, p1, t1) ->
  control_routine p1 = (Raise e, p2) ->
  e <> EmergencyException ->
  stmt write_outputs (deliver_signals p2) = (r4, p4, t4) ->
  scan_cycle p
  = (match r4 with Raise e' => Raise e' | Return _ => Raise e end,
     p4, t1 ++ EvControlRoutine :: t4).
Proof.
  intros H1 H2 He H4. unfold scan_cycle, try_finally, try_except.
  rewrite try_block_eq, H1, H2.
  destruct e; try congruence; simpl; rewrite H4, <- app_assoc; now destruct r4.
Qed.

(** The calls of one iteration, however it ends: one scan cycle starts,
    the exit routine is not called, the emergency routine at most once
    and never when the iteration falls through, exactly once when it
    executes [return]; [write_outputs] is called once, last. *)
Lemma scan_cycle_shape (p p' : PLC) (r : result loop_exit) (t : list event) :
  scan_cycle p = (r, p', t) ->
  exists body tw,
    t = body ++ EvWriteOutputs :: tw /\
    Forall (fun ev => leaf ev = true) tw /\
    count is_exit_routine body = 0 /\
    count is_write_outputs body = 0 /\
    count is_cycle_start body = 1 /\
    count is_emergency_routine body <= 1 /\
    (r = Return Continue -> count is_emergency_routine body = 0) /\
    (r = Return Returned -> count is_emergency_routine body = 1).
Proof.
  intros H.
  destruct (advance_and_input_trace p) as (tr & Er & Hr).
  destruct (advance_and_input p) as [[[[]|e] p1] t1] eqn:H1; simpl in Er; subst t1.
  - destruct (control_routine p1) as [[[]|e] p2] eqn:H2.
    + destruct (stmt write_outputs (deliver_signals p2)) as [[r4 p4] t4] eqn:H4.
      destruct (stmt_write_outputs_trace (deliver_signals p2)) as (tw & Ew & Hw).
      rewrite H4 in Ew. simpl in Ew. subst t4.
      rewrite (scan_cycle_normal _ _ _ _ _ _ _ H1 H2 H4) in H. injection H as <- _ <-.
      exists (EvUpdateRegistries :: EvReadInputs :: tr ++ [EvControlRoutine]), tw.
      split; [simpl; now rewrite <- app_assoc|]. split; [exact Hw|].
      repeat split; try count_calls. destruct r4; discriminate.
    + destruct (exn_is_emergency e) as [->|He].
      * destruct (emergency_routine (deliver_signals p2)) as [r3 p3] eqn:H3.
        destruct (stmt write_outputs (deliver_signals p3)) as [[r4 p4] t4] eqn:H4.
        destruct (stmt_write_outputs_trace (deliver_signals p3)) as (tw & Ew & Hw).
        rewrite H4 in Ew. simpl in Ew. subst t4.
        rewrite (scan_cycle_emergency _ _ _ _ _ _ _ _ _ H1 H2 H3 H4) in H.
        injection H as <- _ <-.
        exists (EvUpdateRegistries :: EvReadInputs :: tr
                ++ [EvControlRoutine; EvEmergencyRoutine]), tw.
        split; [simpl; now rewrite <- app_assoc|]. split; [exact Hw|].
        repeat split; try count_calls.
        destruct r4 as [[]|]; destruct r3 as [[]|]; discriminate.
      * destruct (stmt write_outputs (deliver_signals p2)) as [[r4 p4] t4] eqn:H4.
        destruct (stmt_write_outputs_trace (deliver_signals p2)) as (tw & Ew & Hw).
        rewrite H4 in Ew. simpl in Ew. subst t4.
        rewrite (scan_cycle_control_raises _ _ _ _ _ _ _ _ H1 H2 He H4) in H.
        injection H as <- _ <-.
        exists (EvUpdateRegistries :: EvReadInputs :: tr ++ [EvControlRoutine]), tw.
        split; [simpl; now rewrite <- app_assoc|]. split; [exact Hw|].
        repeat split; try count_calls; destruct r4; discriminate.
  - pose proof (advance_and_input_raises _ _ _ _ H1) as He.
    destruct (stmt write_outputs p1) as [[r4 p4] t4] eqn:H4.
    destruct (stmt_write_outputs_trace p1) as (tw & Ew & Hw).
    rewrite H4 in Ew. simpl in Ew. subst t4.
    rewrite (scan_cycle_input_raises _ _ _ _ _ _ _ H1 He H4) in H. injection H as <- _ <-.
    exists (EvUpdateRegistries :: EvReadInputs :: tr), tw.
    split; [reflexivity|]. split; [exact Hw|].
    repeat split; try count_calls; destruct r4; discriminate.
Qed.

Lemma while_else_trace (p : PLC) :
  exists tw,
    Forall (fun ev => leaf ev = true) tw /\
    (snd (while_else p) = EvExitRoutine :: EvWriteOutputs :: tw \/
     (snd (while_else p) = [EvExitRoutine] /\
      exists e, fst (fst (while_else p)) = Raise e /\ fst (exit_routine p) = Raise e)).
Proof.
  rewrite while_else_eq. destruct (exit_routine p) as [[[]|e] p1]; simpl.
  - destruct (stmt_write_outputs_trace (deliver_signals p1)) as (tw & Ew & Hw).
    destruct (stmt write_outputs (deliver_signals p1)) as [[r q] t]. simpl in *.
    exists tw. split; auto. left. now rewrite Ew.
  - exists []. split; [constructor|]. right. eauto.
Qed.

(** X10. When the stop flag is already up as [run] starts, no scan
    cycle is executed: [run] calls the exit routine and then, if it
    returned, [write_outputs] once, and ends. *)
Theorem run_stop_before_start (n : nat) (p : PLC) :
  _exit p = true ->
  run (S n) p = Some (while_else p) /\
  let t := snd (while_else p) in
  count is_cycle_start t = 0 /\
  count is_control_routine t = 0 /\
  count is_emergency_routine t = 0 /\
  count is_exit_routine t = 1 /\
  (fst (exit_routine p) = Return tt -> count is_write_outputs t = 1).
Proof.
  intros Hx. split; [simpl; now rewrite Hx|].
  cbv zeta.
  destruct (while_else_trace p) as (tw & Hw & [E|(E & e & _ & He)]); rewrite E.
  - split; [|split; [|split; [|split; [|intros _]]]]; count_calls.
  - split; [|split; [|split; [|split]]]; try reflexivity. rewrite He. discriminate.
Qed.

(** X11. When the control routine raises anything else than the
    emergency, [write_outputs] is still called once, and then [run]
    ends by raising: the exception of the control routine, or
    [write_outputs]'s own if it raises too.  Neither the emergency
    routine nor the exit routine is called. *)
Theorem run_control_raises (k n : nat) (p0 p p1 p2 p4 : PLC)
    (t0 t1 t4 : list event) (e : exn) (r4 : result unit) :
  normal_cycles k p0 = Some (p, t0) ->
  _exit p = false ->
  advance_and_input p = (Return tt, p1, t1) ->
  control_routine p1 = (Raise e, p2) ->
  e <> EmergencyException ->
  stmt write_outputs (deliver_signals p2) = (r4, p4, t4) ->
  let t := t0 ++ t1 ++ EvControlRoutine :: t4 in
  run (k + S n) p0
  = Some (match r4 with Raise e' => Raise e' | Return _ => Raise e end, p4, t) /\
  count is_emergency_routine t = 0 /\
  count is_exit_routine t = 0 /\
  count is_write_outputs t4 = 1 /\
  count is_cycle_start t4 = 0.
Proof.
  intros Hk Hx H1 H2 He H4 t.
  destruct (advance_and_input_trace p) as (tr & Er & Hr). rewrite H1 in Er. simpl in Er.
  destruct (stmt_write_outputs_trace (deliver_signals p2)) as (tw & Ew & Hw).
  rewrite H4 in Ew. simpl in Ew.
  destruct (normal_cycles_counts _ _ _ _ Hk) as (K1 & K2 & _).
  split; [|subst t t1 t4; repeat split; count_calls].
  rewrite (run_normal_cycles _ (S n) _ _ _ Hk). simpl. rewrite Hx.
  rewrite (scan_cycle_control_raises _ _ _ _ _ _ _ _ H1 H2 He H4).
  now destruct r4.
Qed.

Lemma registered_deliver_signals (p : PLC) :
  registered p -> registered (deliver_signals p).
Proof.
  intros H. unfold deliver_signals. destruct (sigtstp (world p)); exact H.
Qed.

(** X12. When a write fails in the output phase of an iteration in
    which the input phase and the control routine returned, [run] ends
    at once with what [write_outputs] raised: the loop head is not
    reached again, and neither the exit routine nor the emergency
    routine is called. *)
Theorem run_output_failure (k n : nat) (p0 p p1 p2 p4 : PLC)
    (t0 t1 t4 : list event) (e : exn) :
  normal_cycles k p0 = Some (p, t0) ->
  _exit p = false ->
  advance_and_input p = (Return tt, p1, t1) ->
  control_routine p1 = (Return tt, p2) ->
  stmt write_outputs (deliver_signals p2) = (Raise e, p4, t4) ->
  let t := t0 ++ t1 ++ EvControlRoutine :: t4 in
  run (k + S n) p0 = Some (Raise e, p4, t) /\
  count is_emergency_routine t = 0 /\
  count is_exit_routine t = 0 /\
  count is_cycle_start t = S k /\
  (registered p2 -> exists msg, e = SystemExit msg).
Proof.
  intros Hk Hx H1 H2 H4 t.
  destruct (advance_and_input_trace p) as (tr & Er & Hr). rewrite H1 in Er. simpl in Er.
  destruct (stmt_write_outputs_trace (deliver_signals p2)) as (tw & Ew & Hw).
  rewrite H4 in Ew. simpl in Ew.
  destruct (normal_cycles_counts _ _ _ _ Hk) as (K1 & K2 & K3 & _).
  split; [|split; [|split; [|split]]].
  - rewrite (run_normal_cycles _ (S n) _ _ _ Hk). simpl. rewrite Hx.
    now rewrite (scan_cycle_normal _ _ _ _ _ _ _ H1 H2 H4).
  - subst t t1 t4. count_calls.
  - subst t t1 t4. count_calls.
  - subst t t1 t4. count_calls.
  - intros Hreg. unfold stmt in H4.
    destruct (write_outputs (deliver_signals p2)) as [[r q] t'] eqn:E.
    injection H4 as -> _ _.
    destruct (write_outputs_frame _ _ _ _ E) as (_ & Hout).
    destruct Hout as (_ & [Habs|[msg Hmsg]]);
      [|discriminate|injection Hmsg as ->; eauto].
    now apply registered_deliver_signals.
Qed.

(** X13. In every run that ends, the emergency routine and the exit
    routine are called at most once between them, and [run] returns
    (rather than raises) only after exactly one such call. *)
Theorem run_one_routine (fuel : nat) (p p' : PLC) (r : result unit) (t : list event) :
  run fuel p = Some (r, p', t) ->
  count is_emergency_routine t + count is_exit_routine t <= 1 /\
  (r = Return tt -> count is_emergency_routine t + count is_exit_routine t = 1).
Proof.
  revert p p' r t. induction fuel as [|fuel IH]; intros p p' r t H; [discriminate|].
  simpl in H. destruct (_exit p).
  - injection H as H.
    destruct (while_else_trace p) as (tw & Hw & [E|(E & _)]); rewrite H in E;
      simpl in E; subst t; split; try intros _; count_calls.
  - destruct (scan_cycle p) as [[rc pc] tc] eqn:Ec.
    destruct (scan_cycle_shape _ _ _ _ Ec) as (body & tw & -> & Hw & B1 & B2 & B3 & B4 & B5 & B6).
    destruct rc as [[]|e].
    + destruct (run fuel pc) as [[[r1 p1] t1]|] eqn:Er; [|discriminate].
      injection H as <- _ <-. apply IH in Er as (I1 & I2). specialize (B5 eq_refl).
      split; [|intros Hr; specialize (I2 Hr)]; count_calls.
    + injection H as <- _ <-. specialize (B6 eq_refl). split; [|intros _]; count_calls.
    + injection H as <- _ <-. split; [count_calls|discriminate].
Qed.

(** X14. Every run that ends has flushed the outputs last: the last
    method the engine calls is [write_outputs], followed by the writes
    and the error handling of that call only; the one exception is a
    run whose exit routine raises, which ends with the call of that
    routine. *)
Theorem run_flushes_last (fuel : nat) (p p' : PLC) (r : result unit) (t : list event) :
  run fuel p = Some (r, p', t) ->
  (exists pre tw, t = pre ++ EvWriteOutputs :: tw /\ Forall (fun ev => leaf ev = true) tw) \/
  (exists pre e, t = pre ++ [EvExitRoutine] /\ r = Raise e).
Proof.
  revert p p' r t. induction fuel as [|fuel IH]; intros p p' r t H; [discriminate|].
  simpl in H. destruct (_exit p).
  - injection H as H.
    destruct (while_else_trace p) as (tw & Hw & [E|(E & e & He & _)]); rewrite H in *;
      simpl in *; subst t.
    + left. exists [EvExitRoutine], tw. auto.
    + right. exists [], e. auto.
  - destruct (scan_cycle p) as [[rc pc] tc] eqn:Ec.
    destruct (scan_cycle_shape _ _ _ _ Ec) as (body & tw & -> & Hw & _).
    destruct rc as [[]|e].
    + destruct (run fuel pc) as [[[r1 p1] t1]|] eqn:Er; [|discriminate].
      injection H as <- _ <-.
      apply IH in Er as [(pre & tw' & -> & Hw')|(pre & e & -> & ->)].
      * left. exists ((body ++ EvWriteOutputs :: tw) ++ pre), tw'.
        split; [apply app_assoc|exact Hw'].
      * right. exists ((body ++ EvWriteOutputs :: tw) ++ pre), e.
        split; [apply app_assoc|reflexivity].
    + injection H as <- _ <-. left. eauto.
    + injection H as <- _ <-. left. eauto.
Qed.

(** *** Registering inputs and outputs *)

Lemma registered_fold (rs : list registration) :
  forall p : PLC, registered p -> registered (configure rs p).
Proof.
  unfold configure. induction rs as [|r rs IH]; intros p Hp; simpl; auto.
  apply IH. now apply registered_register.
Qed.

(** C9 (amended). Registering a digital input on a PLC, after whatever
    other registrations, creates a single-bit variable with both states
    0, or both states 1 for a normally closed contact, and binds it
    under the label.  Provided no output is registered whose status
    entry [<output>_status] has the label of the input: after the input
    phase of the first scan cycle the variable holds the value that the
    read of this input returned in that phase, with the initial value
    as previous state; so for a contact that is not normally closed and
    a truthy reading, the variable is active and its raising edge is
    true. *)
Theorem add_digital_input_raising_edge (rs : list registration)
    (pf : option PiFactory) (eml : option EmailNotification) (w0 : W)
    (pin : pin_id) (l : string) (NC_contact : option bool)
    (p2 : PLC) (t : list event) :
  let p := configure rs (AbstractPLC_init pf eml w0) in
  let mv := fst (add_digital_input pin l NC_contact p) in
  let p1 := snd (add_digital_input pin l NC_contact p) in
  let init := if truthy_flag NC_contact then VInt 1 else VInt 0 in
  let g := DigitalInput pin l (pin_factory p) None (negb (truthy_flag NC_contact)) in
  mv = {| curr_state := init; prev_state := init;
          single_bit := true; decimal_precision := 3 |} /\
  od_get l (input_registry p1) = Some mv /\
  od_get l (_inputs p1) = Some g /\
  ((forall g', In g' (od_values (_outputs p)) -> (label g' ++ "_status")%string <> l) ->
   advance_and_input p1 = (Return tt, p2, t) ->
   exists v t1 t2,
     input_phase_reads p1 t t1 t2 /\
     reading t1 l v /\
     od_get l (input_registry p2) = Some (update mv v) /\
     (truthy_flag NC_contact = false -> truthy v = true ->
      active (update mv v) = true /\
      raising_edge (update mv v) = Return true)).
Proof.
  intros p.
  assert (wf_bindings (_inputs p)) as Hwf
    by apply (registered_fold rs _ (registered_init pf eml w0)).
  revert Hwf. generalize p. clear p. intros p Hwf.
  unfold add_digital_input.
  destruct (truthy_flag NC_contact) eqn:Enc; cbn [fst snd negb];
    (split; [reflexivity|]); (split; [apply od_get_set_eq|]);
    (split; [apply od_get_set_eq|]); intros Hclash H.
  - match type of H with advance_and_input ?q = _ => set (p1 := q) in * end.
    assert (wf_bindings (_inputs p1)) as Hwf1
      by (apply wf_bindings_set; [reflexivity|exact Hwf]).
    assert (In (DigitalInput pin l (pin_factory p) None false) (od_values (_inputs p1)))
      as Hin1 by apply od_values_set_In.
    destruct (input_phase_input p1 p2 t _ Hwf1 Hin1 Hclash H)
      as (mv & v & t1 & t2 & Ht & Hrd & Hget & Hres).
    cbn [label] in Hrd, Hget, Hres.
    unfold p1 in Hget. cbn [input_registry set_input_registry] in Hget.
    rewrite od_get_set_eq in Hget. injection Hget as <-.
    exists v, t1, t2. split; [exact Ht|]. split; [exact Hrd|]. split; [exact Hres|].
    discriminate.
  - match type of H with advance_and_input ?q = _ => set (p1 := q) in * end.
    assert (wf_bindings (_inputs p1)) as Hwf1
      by (apply wf_bindings_set; [reflexivity|exact Hwf]).
    assert (In (DigitalInput pin l (pin_factory p) None true) (od_values (_inputs p1)))
      as Hin1 by apply od_values_set_In.
    destruct (input_phase_input p1 p2 t _ Hwf1 Hin1 Hclash H)
      as (mv & v & t1 & t2 & Ht & Hrd & Hget & Hres).
    cbn [label] in Hrd, Hget, Hres.
    unfold p1 in Hget. cbn [input_registry set_input_registry] in Hget.
    rewrite od_get_set_eq in Hget. injection Hget as <-.
    exists v, t1, t2. split; [exact Ht|]. split; [exact Hrd|]. split; [exact Hres|].
    intros _ Hv.
    rewrite active_truthy, raising_edge_single_bit by reflexivity. simpl. now rewrite Hv.
Qed.

(** What the first input phase after registering an output under [l]
    does, on the PLC [p1] that the registration left: the output
    variable still holds the initial value in both states, and the
    status variable holds the value that the read-back of this output
    returned in that phase, with 0 as previous state; when that value
    is truthy, the status variable is active and its raising edge is
    [edge]. *)
Definition first_status_read (p1 : PLC) (l : string) (init_value : value)
    (edge : result bool) : Prop :=
  forall (p2 : PLC) (t : list event),
    advance_and_input p1 = (Return tt, p2, t) ->
    exists out st v t1 t2,
      input_phase_reads p1 t t1 t2 /\
      reading t2 l v /\
      od_get l (output_registry p2) = Some out /\
      curr_state out = init_value /\ prev_state out = init_value /\
      od_get (l ++ "_status")%string (input_registry p2) = Some st /\
      prev_state st = VInt 0 /\ curr_state st = v /\
      (truthy v = true -> active st = true /\ raising_edge st = edge).

Lemma first_status_read_intro (p1 : PLC) (l : string) (g : binding)
    (init_value : value) (out0 st0 : MemoryVariable) :
  wf_bindings (_outputs p1) ->
  In g (od_values (_outputs p1)) ->
  label g = l ->
  (forall g', In g' (od_values (_inputs p1)) -> label g' <> (l ++ "_status")%string) ->
  od_get l (output_registry p1) = Some out0 ->
  curr_state out0 = init_value ->
  od_get (l ++ "_status")%string (input_registry p1) = Some st0 ->
  curr_state st0 = VInt 0 ->
  first_status_read p1 l init_value
    (if single_bit st0 then Return true else Raise not_single_bit).
Proof.
  intros Hwf Hin Hl Hclash Hout Hinit Hst Hst0 p2 t H. subst l.
  destruct (input_phase_status _ _ _ g Hwf Hin Hclash H)
    as ((mv & v & t1 & t2 & Ht & Hrd & Hget & Hres) & Hreg).
  unfold status_key in *. rewrite Hst in Hget. injection Hget as <-.
  exists (restamp out0), (update st0 v), v, t1, t2.
  rewrite Hreg, od_get_map, Hout.
  split; [exact Ht|]. split; [exact Hrd|]. split; [reflexivity|].
  split; [exact Hinit|]. split; [exact Hinit|]. split; [exact Hres|].
  split; [exact Hst0|]. split; [reflexivity|].
  intros Hv. split.
  - rewrite active_truthy. exact Hv.
  - unfold raising_edge. simpl. rewrite Hv, Hst0. now destruct (single_bit st0).
Qed.

(** C10 (amended). Registering a digital output or a PWM output under
    a label, after whatever other registrations, creates the status
    variable under [<label>_status] with both states 0 whatever the
    initial value, and the output variable with both states equal to
    the initial value.  Provided no input is registered under
    [<label>_status]: the first input phase leaves the output variable
    with the initial value in both states and the status variable with
    the value read back from this output as current state and 0 as
    previous state; when that value is truthy the status variable is
    active, and its raising edge is true for a digital output, and
    raises [ValueError] for a PWM output, whose status variable is not
    single bit. *)
Theorem add_output_status_edge (rs : list registration)
    (pf : option PiFactory) (eml : option EmailNotification) (w0 : W)
    (pin : pin_id) (l : string)
    (init_value frame_width min_pulse_width max_pulse_width min_value max_value : value)
    (precision : Z) :
  let p := configure rs (AbstractPLC_init pf eml w0) in
  let digital := add_digital_output pin l init_value p in
  let pwm := add_pwm_output pin l init_value frame_width min_pulse_width
               max_pulse_width min_value max_value precision p in
  let no_input_under_status :=
    forall g', In g' (od_values (_inputs p)) -> label g' <> (l ++ "_status")%string in
  fst digital
  = ({| curr_state := init_value; prev_state := init_value;
        single_bit := true; decimal_precision := 3 |},
     {| curr_state := VInt 0; prev_state := VInt 0;
        single_bit := true; decimal_precision := 3 |}) /\
  fst pwm
  = ({| curr_state := init_value; prev_state := init_value;
        single_bit := false; decimal_precision := 3 |},
     {| curr_state := VInt 0; prev_state := VInt 0;
        single_bit := false; decimal_precision := precision |}) /\
  od_get l (output_registry (snd digital)) = Some (fst (fst digital)) /\
  od_get (l ++ "_status")%string (input_registry (snd digital)) = Some (snd (fst digital)) /\
  od_get l (output_registry (snd pwm)) = Some (fst (fst pwm)) /\
  od_get (l ++ "_status")%string (input_registry (snd pwm)) = Some (snd (fst pwm)) /\
  (no_input_under_status ->
   first_status_read (snd digital) l init_value (Return true)) /\
  (no_input_under_status ->
   first_status_read (snd pwm) l init_value
     (Raise (ValueError "Memory variable is not single bit."))).
Proof.
  intros p.
  assert (wf_bindings (_outputs p)) as Hwf
    by apply (registered_fold rs _ (registered_init pf eml w0)).
  revert Hwf. generalize p. clear p. intros p Hwf.
  unfold add_digital_output, add_pwm_output. cbn [fst snd].
  split; [reflexivity|]. split; [reflexivity|].
  split; [cbn; apply od_get_set_eq|]. split; [cbn; apply od_get_set_eq|].
  split; [cbn; apply od_get_set_eq|]. split; [cbn; apply od_get_set_eq|].
  split; intros Hclash.
  - match goal with |- first_status_read ?q _ _ _ =>
      apply (first_status_read_intro q l (DigitalOutput pin l (pin_factory p) init_value)
               init_value
               {| curr_state := init_value; prev_state := init_value;
                  single_bit := true; decimal_precision := 3 |}
               MemoryVariable_default)
    end;
      cbn [_outputs _inputs output_registry input_registry set_input_registry
           set_output_registry set__outputs]; auto.
    + now apply wf_bindings_set.
    + apply od_values_set_In.
    + apply od_get_set_eq.
    + apply od_get_set_eq.
  - match goal with |- first_status_read ?q _ _ _ =>
      apply (first_status_read_intro q l
               (PWMOutput pin l (pin_factory p) init_value frame_width min_pulse_width
                  max_pulse_width min_value max_value)
               init_value
               {| curr_state := init_value; prev_state := init_value;
                  single_bit := false; decimal_precision := 3 |}
               {| curr_state := VInt 0; prev_state := VInt 0;
                  single_bit := false; decimal_precision := precision |})
    end;
      cbn [_outputs _inputs output_registry input_registry set_input_registry
           set_output_registry set__outputs]; auto.
    + now apply wf_bindings_set.
    + apply od_values_set_In.
    + apply od_get_set_eq.
    + apply od_get_set_eq.
Qed.

(** *** Edges of the inputs *)

(** X16. After an input phase that returns, the entry of a bound input
    holds the value that the read of this input returned in this phase
    as its current state, and its former current state as its previous
    state (given well-formed bindings and no output whose status entry
    has the input's label).  So on a single-bit entry the raising edge
    is true exactly when this reading is truthy and the entry was not
    active when the cycle began, and the falling edge exactly when the
    reading is falsy and the entry was active. *)
Theorem input_edges_after_phase (p p2 : PLC) (t : list event) (g : binding) :
  wf_bindings (_inputs p) ->
  In g (od_values (_inputs p)) ->
  (forall g', In g' (od_values (_outputs p)) -> (label g' ++ "_status")%string <> label g) ->
  advance_and_input p = (Return tt, p2, t) ->
  exists mv v t1 t2,
    input_phase_reads p t t1 t2 /\
    reading t1 (label g) v /\
    od_get (label g) (input_registry p) = Some mv /\
    od_get (label g) (input_registry p2) = Some (update mv v) /\
    (single_bit mv = true ->
     raising_edge (update mv v) = Return (truthy v && negb (active mv)) /\
     falling_edge (update mv v) = Return (active mv && negb (truthy v))).
Proof.
  intros Hwf Hin Hclash H.
  destruct (input_phase_input _ _ _ g Hwf Hin Hclash H)
    as (mv & v & t1 & t2 & Ht & Hrd & Hget & Hres).
  exists mv, v, t1, t2. repeat split; auto; try apply Ht; try apply Hrd.
  - rewrite raising_edge_single_bit, active_truthy by assumption. reflexivity.
  - rewrite falling_edge_single_bit, active_truthy by assumption. reflexivity.
Qed.

(** X17. When an input is bound under the label of an output's status
    entry (input "x_status", output "x"), the one entry is updated
    twice in every input phase, first with the value that the read of
    the input returned in this phase and then with the value that the
    read-back of the output returned in it: after the phase its
    previous state is the input's reading of this same cycle, not the
    state the entry had when the cycle began. *)
Theorem status_clash_double_update (p p2 : PLC) (t : list event) (g_in g_out : binding) :
  wf_bindings (_inputs p) ->
  wf_bindings (_outputs p) ->
  In g_in (od_values (_inputs p)) ->
  In g_out (od_values (_outputs p)) ->
  label g_in = (label g_out ++ "_status")%string ->
  advance_and_input p = (Return tt, p2, t) ->
  exists mv v_in v_out t1 t2,
    input_phase_reads p t t1 t2 /\
    reading t1 (label g_in) v_in /\
    reading t2 (label g_out) v_out /\
    od_get (label g_in) (input_registry p) = Some mv /\
    od_get (label g_in) (input_registry p2) = Some (update (update mv v_in) v_out) /\
    prev_state (update (update mv v_in) v_out) = v_in /\
    curr_state (update (update mv v_in) v_out) = v_out.
Proof.
  intros Hwi Hwo Hin Hout Hclash H.
  destruct (advance_and_input_Return _ _ _ H)
    as (q & p1 & q2 & t1 & t2 & Qi & Qo & Qr & _ & E1 & E2 & Hr & _ & Ht).
  destruct (read_loop_frame _ _ _ _ _ _ E1) as (_ & F1o & _).
  assert (NoDup (map label (od_values (_inputs p)))) as Hnd1.
  { rewrite wf_bindings_labels by exact Hwi. apply Hwi. }
  assert (NoDup (map label (od_values (_outputs p)))) as Hndl.
  { rewrite wf_bindings_labels by exact Hwo. apply Hwo. }
  assert (NoDup (map status_key (od_values (_outputs p1)))) as Hnd2.
  { rewrite F1o, Qo. unfold status_key.
    rewrite <- (map_map label (fun l => (l ++ "_status")%string)).
    now apply NoDup_map_injective; [intros a b; apply append_inj_l|]. }
  rewrite <- Qi in Hin. rewrite <- Qo, <- F1o in Hout.
  destruct (read_loop_hit _ _ g_in _ _ _ E1 ltac:(now rewrite Qi) Hin)
    as (mv & v_in & Hget1 & Hev1 & Hres1).
  destruct (read_loop_hit _ _ g_out _ _ _ E2 Hnd2 Hout)
    as (mv' & v_out & Hget2 & Hev2 & Hres2).
  unfold status_key in Hget2, Hres2. rewrite <- Hclash in Hget2, Hres2.
  rewrite Hres1 in Hget2. injection Hget2 as <-.
  exists mv, v_in, v_out, t1, t2. rewrite <- Qr, Hr.
  split; [exact Ht|]. split; [|split; [|auto]].
  - split; [exact Hev1|]. intros v' Hv'.
    exact (reading_unique _ _ _ _ _ (proj1 (proj2 Ht)) Hnd1 Hev1 Hv').
  - split; [exact Hev2|]. intros v' Hv'.
    exact (reading_unique _ _ _ _ _ (proj2 (proj2 Ht)) Hndl Hev2 Hv').
Qed.

End EngineFacts.

(** ** Runs on the test bench *)

Lemma run_emergency_witness :
  exists p4 t,
    run 3 (Bench.plc Bench.emergency_on_third) = Some (Return tt, p4, t) /\
    count is_emergency_routine t = 1 /\
    count is_exit_routine t = 0.
Proof.
  edestruct (run_emergency 2 0 (Bench.plc Bench.emergency_on_third))
    as (Hrun & Hem & Hex & _).
  - cbv. reflexivity.
  - reflexivity.
  - cbv. reflexivity.
  - cbv. reflexivity.
  - cbv. reflexivity.
  - cbv. reflexivity.
  - eexists _, _. split; [exact Hrun|]. split; [exact Hem|exact Hex].
Defined.

(** A run in which a read fails and then the first write fails too:
    the second bound output, "lamp", is never written. *)
Lemma second_output_not_written :
  let p0 := Bench.plc2 Bench.broken_input_and_output in
  od_keys (_outputs p0) = ["valve"; "lamp"] /\
  od_get "lamp" (output_registry p0)
  = Some {| curr_state := VInt 1; prev_state := VInt 1;
            single_bit := true; decimal_precision := 3 |} /\
  Bench.outcome_of (run 1 p0)
  = Some (Raise (SystemExit "program interrupted: no reply")) /\
  Bench.trace_of (run 1 p0)
  = [EvUpdateRegistries; EvReadInputs; EvRead "start" (inr "no reply");
     EvLogError "program interrupted: no reply";
     EvNotify "program interrupted: no reply";
     EvSysExit "program interrupted: no reply";
     EvWriteOutputs; EvWrite "valve" (VInt 0);
     EvLogError "program interrupted: no reply";
     EvNotify "program interrupted: no reply";
     EvSysExit "program interrupted: no reply"] /\
  (forall v, ~ In (EvWrite "lamp" v) (Bench.trace_of (run 1 p0))).
Proof.
  cbv zeta. split; [reflexivity|]. split; [reflexivity|]. split; [reflexivity|].
  split; [reflexivity|].
  intros v H. cbv in H. intuition discriminate.
Qed.

Lemma run_input_failure_witness :
  exists p3 t,
    run 1 (Bench.plc2 Bench.broken_input)
    = Some (Raise (SystemExit "program interrupted: no reply"), p3, t) /\
    Forall2 (written p3) (od_values (_outputs p3)) (filter is_write t).
Proof.
  edestruct (run_input_failure 0 0 (Bench.plc2 Bench.broken_input))
    as (Hrun & _ & _ & _ & _ & Hok & _).
  - cbv. reflexivity.
  - reflexivity.
  - cbv. reflexivity.
  - intros g [<-|[<-|[]]]; discriminate.
  - cbv. reflexivity.
  - eexists _, _. split; [exact Hrun|].
    edestruct Hok as [_ Hall]; [cbv; reflexivity|].
    rewrite filter_app. exact Hall.
Defined.

(** The same read failure in a world where the write of "valve" fails:
    [write_outputs] ends in [SystemExit] with the description of the
    write failure, "valve" has been written and "lamp" has not. *)
Lemma run_input_failure_first_write_fails :
  let p0 := Bench.plc2 Bench.broken_input_and_output in
  let p1 := snd (fst (advance_and_input p0)) in
  fst (stmt write_outputs p1)
  = (Raise (SystemExit "program interrupted: no reply"),
     snd (fst (stmt write_outputs p1))) /\
  filter is_write (snd (stmt write_outputs p1)) = [EvWrite "valve" (VInt 0)].
Proof. cbv zeta. split; vm_compute; reflexivity. Qed.


(** A run in which the stop flag goes up during the first scan cycle
    and no emergency occurs, but a read fails in that cycle: the
    control routine and the exit routine are never called. *)
Lemma stop_with_broken_input :
  let p0 := Bench.plc Bench.broken_input_and_stop in
  _exit p0 = false /\
  _exit (deliver_signals (advance p0)) = true /\
  Bench.outcome_of (run 1 p0)
  = Some (Raise (SystemExit "program interrupted: no reply")) /\
  Bench.trace_of (run 1 p0)
  = [EvUpdateRegistries; EvReadInputs; EvRead "start" (inr "no reply");
     EvLogError "program interrupted: no reply";
     EvSysExit "program interrupted: no reply";
     EvWriteOutputs; EvWrite "valve" (VInt 0)] /\
  count is_emergency_routine (Bench.trace_of (run 1 p0)) = 0 /\
  count is_control_routine (Bench.trace_of (run 1 p0)) = 0 /\
  count is_exit_routine (Bench.trace_of (run 1 p0)) = 0.
Proof. cbv zeta. repeat split; reflexivity. Qed.

Lemma run_stop_requested_witness :
  exists p6 t,
    run 3 (Bench.plc Bench.stop_in_second) = Some (Return tt, p6, t) /\
    count is_exit_routine t = 1 /\
    count is_cycle_start t = 2.
Proof.
  edestruct (run_stop_requested 1 0 (Bench.plc Bench.stop_in_second))
    as (Hrun & _ & Hex & _).
  - cbv. reflexivity.
  - reflexivity.
  - cbv. reflexivity.
  - cbv. reflexivity.
  - cbv. reflexivity.
  - reflexivity.
  - cbv. reflexivity.
  - cbv. reflexivity.
  - eexists _, _. split; [exact Hrun|]. split; [exact Hex|reflexivity].
Defined.

(** The output variable of a PWM output after the advance phase: both
    edge queries raise, they are not false. *)
Lemma advance_pwm_edges_raise :
  let p := advance (Bench.plc_pwm Bench.quiet) in
  od_get "fan" (output_registry p)
  = Some {| curr_state := VFloat 0.5; prev_state := VFloat 0.5;
            single_bit := false; decimal_precision := 3 |} /\
  forall mv, od_get "fan" (output_registry p) = Some mv ->
    raising_edge mv = Raise (ValueError "Memory variable is not single bit.") /\
    falling_edge mv = Raise (ValueError "Memory variable is not single bit.") /\
    raising_edge mv <> Return false /\
    falling_edge mv <> Return false.
Proof.
  cbv zeta. split; [reflexivity|].
  intros mv H. cbv in H. injection H as <-.
  repeat split; try reflexivity; discriminate.
Qed.

Lemma add_digital_input_raising_edge_witness :
  let p := configure [RegDigitalOutput (PinNumber 27) "valve" (VInt 0)]
             (AbstractPLC_init None None Bench.quiet) : Bench.PLC in
  let mv := fst (add_digital_input (PinNumber 17) "start" (Some false) p) in
  let p1 := snd (add_digital_input (PinNumber 17) "start" (Some false) p) in
  exists v,
    In (EvRead "start" (inl v)) (snd (advance_and_input p1)) /\
    truthy v = true /\
    od_get "start" (input_registry (snd (fst (advance_and_input p1))))
    = Some (update mv v) /\
    active (update mv v) = true /\
    raising_edge (update mv v) = Return true.
Proof.
  intros p mv p1.
  destruct (add_digital_input_raising_edge
              [RegDigitalOutput (PinNumber 27) "valve" (VInt 0)] None None Bench.quiet
              (PinNumber 17) "start" (Some false)
              (snd (fst (advance_and_input p1))) (snd (advance_and_input p1)))
    as (_ & _ & _ & H).
  destruct H as (v & t1 & t2 & (Ht & _ & _) & (Hin & _) & Hres & Hedge).
  - intros g' [<-|[]]. discriminate.
  - vm_compute. reflexivity.
  - assert (truthy v = true) as Hv.
    { vm_compute in Hres. now injection Hres as <-. }
    exists v. split; [|split; [exact Hv|split; [exact Hres|exact (Hedge eq_refl Hv)]]].
    fold p p1 in Ht. rewrite Ht. right. right. apply in_or_app. left. exact Hin.
Defined.

(** An input registered under the label of the status entry of an
    output, here "valve_status" after the output "valve": its binding
    reads a truthy value in the first input phase, and the variable is
    active but its raising edge is false, since the read-back of the
    output has updated the same entry once more. *)
Lemma input_under_status_label_no_edge :
  let p := configure [RegDigitalOutput (PinNumber 27) "valve" (VInt 0)]
             (AbstractPLC_init None None Bench.quiet) : Bench.PLC in
  let reg := add_digital_input (PinNumber 17) "valve_status" (Some false) p in
  let phase := advance_and_input (snd reg) in
  fst reg = {| curr_state := VInt 0; prev_state := VInt 0;
               single_bit := true; decimal_precision := 3 |} /\
  od_get "valve_status" (_inputs (snd reg))
  = Some (DigitalInput (PinNumber 17) "valve_status" None None true) /\
  fst (fst phase) = Return tt /\
  snd phase
  = [EvUpdateRegistries; EvReadInputs;
     EvRead "valve_status" (inl (VBool true)); EvRead "valve" (inl (VBool true))] /\
  truthy (VBool true) = true /\
  od_get "valve_status" (input_registry (snd (fst phase)))
  = Some {| curr_state := VBool true; prev_state := VBool true;
            single_bit := true; decimal_precision := 3 |} /\
  forall mv',
    od_get "valve_status" (input_registry (snd (fst phase))) = Some mv' ->
    active mv' = true /\
    raising_edge mv' = Return false /\
    raising_edge mv' <> Return true.
Proof.
  cbv zeta. repeat (split; [vm_compute; reflexivity|]).
  intros mv' H. vm_compute in H. injection H as <-.
  split; [reflexivity|]. split; [reflexivity|discriminate].
Qed.

(** Two registrations with a truthy initial value whose status variable
    has no true raising edge after a first input phase that reads back
    a truthy status.  The PWM output "fan": the status variable is not
    single bit, and its raising edge raises.  The digital output
    "valve" on a PLC with an input registered under "valve_status": the
    read of that input has updated the status entry before the
    read-back does, and the raising edge is false. *)
Lemma status_edge_not_true :
  (let p1 := Bench.plc_pwm Bench.quiet in
   truthy (VFloat 0.5) = true /\
   od_get "fan" (output_registry p1)
   = Some {| curr_state := VFloat 0.5; prev_state := VFloat 0.5;
             single_bit := false; decimal_precision := 3 |} /\
   fst (fst (advance_and_input p1)) = Return tt /\
   snd (advance_and_input p1)
   = [EvUpdateRegistries; EvReadInputs; EvRead "fan" (inl (VBool true))] /\
   od_get "fan_status" (input_registry (snd (fst (advance_and_input p1))))
   = Some {| curr_state := VBool true; prev_state := VInt 0;
             single_bit := false; decimal_precision := 0 |} /\
   forall st,
     od_get "fan_status" (input_registry (snd (fst (advance_and_input p1)))) = Some st ->
     raising_edge st = Raise (ValueError "Memory variable is not single bit.") /\
     raising_edge st <> Return true) /\
  (let p := configure [RegDigitalInput (PinNumber 17) "valve_status" (Some false)]
              (AbstractPLC_init None None Bench.quiet) : Bench.PLC in
   let reg := add_digital_output (PinNumber 27) "valve" (VInt 1) p in
   let phase := advance_and_input (snd reg) in
   truthy (VInt 1) = true /\
   fst reg
   = ({| curr_state := VInt 1; prev_state := VInt 1;
         single_bit := true; decimal_precision := 3 |},
      {| curr_state := VInt 0; prev_state := VInt 0;
         single_bit := true; decimal_precision := 3 |}) /\
   fst (fst phase) = Return tt /\
   snd phase
   = [EvUpdateRegistries; EvReadInputs;
      EvRead "valve_status" (inl (VBool true)); EvRead "valve" (inl (VBool true))] /\
   od_get "valve" (output_registry (snd (fst phase)))
   = Some {| curr_state := VInt 1; prev_state := VInt 1;
             single_bit := true; decimal_precision := 3 |} /\
   od_get "valve_status" (input_registry (snd (fst phase)))
   = Some {| curr_state := VBool true; prev_state := VBool true;
             single_bit := true; decimal_precision := 3 |} /\
   forall st,
     od_get "valve_status" (input_registry (snd (fst phase))) = Some st ->
     raising_edge st = Return false /\
     raising_edge st <> Return true).
Proof.
  split; cbv zeta; repeat (split; [vm_compute; reflexivity|]);
    intros st H; vm_compute in H; injection H as <-;
    (split; [reflexivity|discriminate]).
Qed.

Lemma add_output_status_edge_witness :
  let p := configure [RegDigitalInput (PinNumber 17) "start" (Some false)]
             (AbstractPLC_init None None Bench.quiet) : Bench.PLC in
  let p1 := snd (add_digital_output (PinNumber 27) "valve" (VInt 1) p) in
  exists out st v,
    In (EvRead "valve" (inl v)) (snd (advance_and_input p1)) /\
    truthy v = true /\
    od_get "valve" (output_registry (snd (fst (advance_and_input p1)))) = Some out /\
    curr_state out = VInt 1 /\ prev_state out = VInt 1 /\
    od_get "valve_status" (input_registry (snd (fst (advance_and_input p1)))) = Some st /\
    prev_state st = VInt 0 /\ curr_state st = v /\
    active st = true /\
    raising_edge st = Return true.
Proof.
  intros p p1.
  destruct (add_output_status_edge
              [RegDigitalInput (PinNumber 17) "start" (Some false)] None None Bench.quiet
              (PinNumber 27) "valve" (VInt 1)
              (VFloat 20) (VFloat 1) (VFloat 2) (VFloat 0) (VFloat 1) 0)
    as (_ & _ & _ & _ & _ & _ & Hd & _).
  assert (forall g' : @GPIO unit, In g' (od_values (_inputs p)) ->
            label g' <> "valve_status") as Hclash
    by (intros g' [<-|[]]; discriminate).
  destruct (Hd Hclash (snd (fst (advance_and_input p1))) (snd (advance_and_input p1)))
    as (out & st & v & t1 & t2 & (Ht & _ & _) & (Hin & _) & Hout & Hc & Hp & Hst & Hp0
        & Hcv & Hedge).
  - vm_compute. reflexivity.
  - assert (truthy v = true) as Hv.
    { vm_compute in Hst. injection Hst as <-. simpl in Hcv. now subst v. }
    destruct (Hedge Hv) as [Ha He].
    exists out, st, v.
    split; [|repeat split; auto].
    fold p p1 in Ht. rewrite Ht. right. right. apply in_or_app. right. exact Hin.
Defined.

(** ** More runs on the test bench *)

Lemma bench_plc_registered (w : Bench.plant) : registered (Bench.plc w).
Proof.
  exact (registered_register (RegDigitalOutput (PinNumber 27) "valve" (VInt 0)) _
           (registered_register (RegDigitalInput (PinNumber 17) "start" (Some false)) _
              (registered_init None None w))).
Qed.

Lemma bench_plc2_registered (w : Bench.plant) : registered (Bench.plc2 w).
Proof.
  exact (registered_register (RegDigitalOutput (PinNumber 22) "lamp" (VInt 1)) _
           (registered_register (RegDigitalOutput (PinNumber 27) "valve" (VInt 0)) _
              (registered_register (RegDigitalInput (PinNumber 17) "start" (Some false)) _
                 (registered_init None (Some "operator@plant") w)))).
Qed.

Lemma bench_plc_clash_registered (w : Bench.plant) : registered (Bench.plc_clash w).
Proof.
  exact (registered_register (RegDigitalOutput (PinNumber 27) "valve" (VInt 0)) _
           (registered_register
              (RegDigitalInput (PinNumber 17) "valve_status" (Some false)) _
              (registered_init None None w))).
Qed.

Lemma read_inputs_registered_witness :
  fst (fst (read_inputs (Bench.plc2 Bench.broken_input)))
  = Raise (SystemExit "program interrupted: no reply") /\
  registered (snd (fst (read_inputs (Bench.plc2 Bench.broken_input)))).
Proof.
  destruct (read_inputs_registered _ (bench_plc2_registered Bench.broken_input))
    as (r & p' & t & E & Hreg & _).
  split; [reflexivity|]. rewrite E. exact Hreg.
Defined.

Lemma read_inputs_frame_witness :
  same_but_inputs (Bench.plc2 Bench.broken_input)
    (snd (fst (read_inputs (Bench.plc2 Bench.broken_input)))).
Proof.
  exact (proj1 (read_inputs_frame (Bench.plc2 Bench.broken_input) _ _ _ (triple_eta _))).
Defined.

Lemma read_inputs_order_witness :
  exists t1 t2,
    snd (read_inputs (Bench.plc2 Bench.quiet)) = EvReadInputs :: t1 ++ t2 /\
    Forall2 read_ok (od_values (_inputs (Bench.plc2 Bench.quiet))) t1 /\
    Forall2 read_ok (od_values (_outputs (Bench.plc2 Bench.quiet))) t2.
Proof.
  edestruct (read_inputs_order (Bench.plc2 Bench.quiet)) as (t1 & t2 & E & F1 & F2).
  - cbv. reflexivity.
  - exists t1, t2. split; [exact E|]. split; [exact F1|exact F2].
Defined.

Lemma write_outputs_frame_witness :
  same_but_world (Bench.plc2 Bench.broken_output)
    (snd (fst (write_outputs (Bench.plc2 Bench.broken_output)))) /\
  exists msg,
    fst (fst (write_outputs (Bench.plc2 Bench.broken_output))) = Raise (SystemExit msg).
Proof.
  destruct (write_outputs_frame (Bench.plc2 Bench.broken_output) _ _ _ (triple_eta _))
    as (Hs & Hreg).
  split; [exact Hs|]. eexists. reflexivity.
Defined.

Lemma di_read_behaviour_witness :
  same_but_world (Bench.plc Bench.quiet)
    (snd (fst (di_read "valve" (Bench.plc Bench.quiet)))) /\
  fst (fst (di_read "valve" (Bench.plc Bench.quiet)))
  = Raise (ConfigurationError "unknown digital input `valve`").
Proof.
  destruct (di_read_behaviour "valve" (Bench.plc Bench.quiet) _ _ _ (triple_eta _))
    as (Hs & Hr & _).
  split; [exact Hs|exact Hr].
Defined.

Lemma do_write_behaviour_witness :
  same_but_world (Bench.plc Bench.quiet)
    (snd (fst (do_write "valve" (VInt 1) (Bench.plc Bench.quiet)))) /\
  snd (do_write "valve" (VInt 1) (Bench.plc Bench.quiet)) = [EvWrite "valve" (VInt 1)] /\
  pwm_write "valve" (VInt 1) (Bench.plc Bench.quiet)
  = do_write "valve" (VInt 1) (Bench.plc Bench.quiet).
Proof.
  destruct (do_write_behaviour "valve" (VInt 1) (Bench.plc Bench.quiet) _ _ _
              (triple_eta _)) as (Hs & Ht & Hp & _).
  split; [exact Hs|]. split; [exact Ht|]. rewrite Hp. symmetry. apply triple_eta.
Defined.

Lemma run_stop_before_start_witness :
  run 1 (exit_handler (Bench.plc Bench.quiet))
  = Some (while_else (exit_handler (Bench.plc Bench.quiet))) /\
  Bench.trace_of (run 1 (exit_handler (Bench.plc Bench.quiet)))
  = [EvExitRoutine; EvWriteOutputs; EvWrite "valve" (VInt 0)].
Proof.
  split; [|reflexivity].
  exact (proj1 (run_stop_before_start 0 (exit_handler (Bench.plc Bench.quiet)) eq_refl)).
Defined.

Lemma run_control_raises_witness :
  exists p4 t,
    @run _ _ _ Bench.hardware Bench.careless 1 (Bench.plc Bench.quiet)
    = Some (Raise (ValueError "Memory variable is not single bit."), p4, t) /\
    count is_write_outputs t = 1 /\
    count is_emergency_routine t = 0 /\ count is_exit_routine t = 0.
Proof.
  edestruct (@run_control_raises _ _ _ Bench.hardware Bench.careless 0 0
               (Bench.plc Bench.quiet)) as (Hrun & Hem & Hex & _).
  - cbv. reflexivity.
  - cbv. reflexivity.
  - cbv. reflexivity.
  - cbv. reflexivity.
  - discriminate.
  - cbv. reflexivity.
  - eexists _, _. split; [exact Hrun|]. split; [reflexivity|]. split; [exact Hem|exact Hex].
Defined.

Lemma run_output_failure_witness :
  exists p4 t,
    run 1 (Bench.plc Bench.broken_output)
    = Some (Raise (SystemExit "program interrupted: no reply"), p4, t) /\
    count is_exit_routine t = 0.
Proof.
  edestruct (run_output_failure 0 0 (Bench.plc Bench.broken_output))
    as (Hrun & _ & Hex & _).
  - cbv. reflexivity.
  - cbv. reflexivity.
  - cbv. reflexivity.
  - cbv. reflexivity.
  - cbv. reflexivity.
  - eexists _, _. split; [exact Hrun|exact Hex].
Defined.

Lemma run_one_routine_witness :
  count is_emergency_routine (Bench.trace_of (run 3 (Bench.plc Bench.emergency_on_third)))
  + count is_exit_routine (Bench.trace_of (run 3 (Bench.plc Bench.emergency_on_third)))
  = 1.
Proof.
  edestruct (run_one_routine 3 (Bench.plc Bench.emergency_on_third)) as (_ & H).
  - cbv. reflexivity.
  - exact (H eq_refl).
Defined.

Lemma run_flushes_last_witness :
  (exists pre tw,
     Bench.trace_of (run 3 (Bench.plc Bench.stop_in_second))
     = pre ++ EvWriteOutputs :: tw /\
     Forall (fun ev => leaf ev = true) tw) \/
  (exists pre e,
     Bench.trace_of (run 3 (Bench.plc Bench.stop_in_second)) = pre ++ [EvExitRoutine] /\
     Return tt = Raise e).
Proof.
  edestruct (run_flushes_last 3 (Bench.plc Bench.stop_in_second)) as [H|H].
  - cbv. reflexivity.
  - left. exact H.
  - right. exact H.
Defined.

Lemma input_edges_after_phase_witness :
  exists mv v,
    In (EvRead "start" (inl v)) (snd (advance_and_input (Bench.plc Bench.quiet))) /\
    od_get "start" (input_registry (snd (fst (advance_and_input (Bench.plc Bench.quiet)))))
    = Some (update mv v) /\
    raising_edge (update mv v) = Return (truthy v && negb (active mv)).
Proof.
  assert (In (DigitalInput (PinNumber 17) "start" None None true)
            (od_values (_inputs (Bench.plc Bench.quiet)))) as Hin by (simpl; auto).
  assert (forall g' : @GPIO unit, In g' (od_values (_outputs (Bench.plc Bench.quiet))) ->
            (label g' ++ "_status")%string <> "start") as Hclash
    by (intros g' [<-|[]]; discriminate).
  assert (advance_and_input (Bench.plc Bench.quiet)
          = (Return tt, snd (fst (advance_and_input (Bench.plc Bench.quiet))),
             snd (advance_and_input (Bench.plc Bench.quiet)))) as Hadv
    by (vm_compute; reflexivity).
  destruct (input_edges_after_phase (Bench.plc Bench.quiet) _ _ _
              (proj1 (bench_plc_registered Bench.quiet)) Hin Hclash Hadv)
    as (mv & v & t1 & t2 & (Ht & _ & _) & (Hev & _) & Hget & Hres & Hedge).
  exists mv, v. split; [|split; [exact Hres|]].
  - rewrite Ht. right. right. apply in_or_app. left. exact Hev.
  - apply Hedge. simpl in Hget. injection Hget as <-. reflexivity.
Defined.

Lemma status_clash_double_update_witness :
  exists mv v_in v_out,
    In (EvRead "valve_status" (inl v_in))
       (snd (advance_and_input (Bench.plc_clash Bench.quiet))) /\
    In (EvRead "valve" (inl v_out))
       (snd (advance_and_input (Bench.plc_clash Bench.quiet))) /\
    od_get "valve_status"
      (input_registry (snd (fst (advance_and_input (Bench.plc_clash Bench.quiet)))))
    = Some (update (update mv v_in) v_out).
Proof.
  destruct (bench_plc_clash_registered Bench.quiet) as (Hwi & Hwo & _).
  assert (In (DigitalInput (PinNumber 17) "valve_status" None None true)
            (od_values (_inputs (Bench.plc_clash Bench.quiet)))) as Hin by (simpl; auto).
  assert (In (DigitalOutput (PinNumber 27) "valve" None (VInt 0))
            (od_values (_outputs (Bench.plc_clash Bench.quiet)))) as Hout by (simpl; auto).
  assert (advance_and_input (Bench.plc_clash Bench.quiet)
          = (Return tt, snd (fst (advance_and_input (Bench.plc_clash Bench.quiet))),
             snd (advance_and_input (Bench.plc_clash Bench.quiet)))) as Hadv
    by (vm_compute; reflexivity).
  destruct (status_clash_double_update (Bench.plc_clash Bench.quiet) _ _ _ _
              Hwi Hwo Hin Hout eq_refl Hadv)
    as (mv & v_in & v_out & t1 & t2 & (Ht & _ & _) & (Hev1 & _) & (Hev2 & _) & _ & Hres & _).
  exists mv, v_in, v_out. split; [|split; [|exact Hres]].
  - rewrite Ht. right. right. apply in_or_app. left. exact Hev1.
  - rewrite Ht. right. right. apply in_or_app. right. exact Hev2.
Defined.
